(** * lab3: an image-processing desktop tool (src/main.py)

    A shallow embedding of [ImageProcessor] (the processing facade) and of
    the two image slots of [ImageProcessingApp] (the session controller),
    with the properties of the specification stated over them.

    The pixel algorithms are calls into OpenCV.  The element-wise ones
    ([convertScaleAbs], [split], [merge], [equalizeHist], [cvtColor],
    [calcHist]) are written out here after the library's documentation,
    in exact rational arithmetic.  The library evaluates the same formulas
    in single precision or in fixed point, so one of its samples can be the
    other neighbour of the exact value where that value lies at or next to
    a half; the properties that name a rounded sample are therefore stated
    up to the rounding, and read the same for either arithmetic.  The
    detectors and the drawing primitives ([Canny], [HoughLines],
    [goodFeaturesToTrack], [line], [circle], the resize of imutils) stay
    abstract: they are the fields of the record [cv_lib], and every theorem
    about them holds for whatever the library computes. *)

From Stdlib Require Import String ZArith QArith Qabs Qround Bool Lia List.
From Stdlib Require Import Reals Lra Psatz.
Import ListNotations.

Open Scope Z_scope.

(** ** Images *)

(** A numpy array of 8-bit samples as [cv2.imread] and the transforms
    return it: two-dimensional (one channel) or three-dimensional with
    three channels in the order blue, green, red. *)
Definition plane : Type := list (list Z).
Definition bgr : Type := (Z * Z * Z)%type.

Inductive image : Type :=
| Gray (rows : plane)
| Color (rows : list (list bgr)).

Definition width {A : Type} (rows : list (list A)) : nat :=
  match rows with
  | [] => 0%nat
  | r :: _ => length r
  end.

(** [image.shape]: (rows, columns) or (rows, columns, 3). *)
Definition shape (img : image) : list nat :=
  match img with
  | Gray rows => [length rows; width rows]
  | Color rows => [length rows; width rows; 3%nat]
  end.

Definition channels (img : image) : nat :=
  match img with
  | Gray _ => 1%nat
  | Color _ => 3%nat
  end.

Definition channel_of (p : bgr) (c : nat) : option Z :=
  let '(b, g, r) := p in
  match c with
  | 0%nat => Some b
  | 1%nat => Some g
  | 2%nat => Some r
  | _ => None
  end.

(** [image[y, x, c]]; [None] outside the array. *)
Definition pixel (img : image) (y x c : nat) : option Z :=
  match img with
  | Gray rows =>
      match nth_error rows y with
      | Some row => match c with 0%nat => nth_error row x | _ => None end
      | None => None
      end
  | Color rows =>
      match nth_error rows y with
      | Some row =>
          match nth_error row x with
          | Some p => channel_of p c
          | None => None
          end
      | None => None
      end
  end.

Definition is_uchar (v : Z) : Prop := 0 <= v <= 255.

Definition bgr_uchar (p : bgr) : Prop :=
  let '(b, g, r) := p in is_uchar b /\ is_uchar g /\ is_uchar r.

(** An image whose samples all fit the 8-bit depth. *)
Definition valid_image (img : image) : Prop :=
  match img with
  | Gray rows => Forall (Forall is_uchar) rows
  | Color rows => Forall (Forall bgr_uchar) rows
  end.

Definition map_plane (f : Z -> Z) (rows : plane) : plane :=
  map (map f) rows.

Definition map_bgr (f : Z -> Z) (p : bgr) : bgr :=
  let '(b, g, r) := p in (f b, f g, f r).

(** Apply [f] to every sample of every channel. *)
Definition map_samples (f : Z -> Z) (img : image) : image :=
  match img with
  | Gray rows => Gray (map_plane f rows)
  | Color rows => Color (map (map (map_bgr f)) rows)
  end.

(** ** Exceptions *)

Inductive exn : Type :=
| ValueError       (* unpacking a tuple of the wrong length *)
| AttributeError   (* attribute access on None *)
| cv2_error.       (* a failed assertion inside OpenCV *)

Inductive result (A : Type) : Type :=
| Ok (a : A)
| Raise (e : exn).
Arguments Ok {A} a.
Arguments Raise {A} e.

Definition bind {A B : Type} (m : result A) (k : A -> result B) : result B :=
  match m with
  | Ok a => k a
  | Raise e => Raise e
  end.

Notation "x <- m ;; k" := (bind m (fun x => k))
  (at level 61, m at next level, right associativity).
Notation "' p <- m ;; k" := (bind m (fun v => let p := v in k))
  (at level 61, p pattern, m at next level, right associativity).

(** ** OpenCV: element-wise arithmetic *)

(** [cvRound]: to the nearest integer, a tie to the even one. *)
Definition cvRound (q : Q) : Z :=
  let f := Qfloor q in
  match (q - inject_Z f ?= 1 # 2)%Q with
  | Lt => f
  | Gt => f + 1
  | Eq => if Z.even f then f else f + 1
  end.

(** [saturate_cast<uchar>] of an integer. *)
Definition saturate_cast_uchar (z : Z) : Z := Z.max 0 (Z.min 255 z).

(** One sample of [cv2.convertScaleAbs]:
    dst = saturate_cast<uchar>(|src * alpha + beta|), with the exact value
    of src * alpha + beta where the library has its single-precision one. *)
Definition convertScaleAbs_px (alpha beta : Q) (v : Z) : Z :=
  saturate_cast_uchar (cvRound (Qabs (inject_Z v * alpha + beta))).

Definition convertScaleAbs (img : image) (alpha beta : Q) : image :=
  map_samples (convertScaleAbs_px alpha beta) img.

(** ** ImageProcessor *)

Definition linear_contrast (img : image) (alpha beta : Q) : image :=
  convertScaleAbs img alpha beta.

(** The contrast transform as the specification words it:
    clamp(alpha * input + beta, 0, 255) on every sample. *)
Definition clamp (lo hi z : Z) : Z := Z.max lo (Z.min hi z).

Definition spec_contrast_px (alpha beta : Q) (v : Z) : Z :=
  clamp 0 255 (cvRound (inject_Z v * alpha + beta)).

Definition spec_linear_contrast (img : image) (alpha beta : Q) : image :=
  map_samples (spec_contrast_px alpha beta) img.

(** ** OpenCV: channels *)

Definition column {A : Type} (f : bgr -> A) (rows : list (list bgr))
  : list (list A) :=
  map (map f) rows.

(** [cv2.split]: the tuple of the channel planes. *)
Definition split (img : image) : list plane :=
  match img with
  | Gray rows => [rows]
  | Color rows =>
      [column (fun p => fst (fst p)) rows;
       column (fun p => snd (fst p)) rows;
       column (fun p => snd p) rows]
  end.

(** The tuple assignment [x, y, z = t]. *)
Definition unpack3 {A : Type} (t : list A) : result (A * A * A) :=
  match t with
  | [x; y; z] => Ok (x, y, z)
  | _ => Raise ValueError
  end.

Definition sizes {A : Type} (rows : list (list A)) : list nat :=
  map (@length A) rows.

Fixpoint same_sizes (s t : list nat) : bool :=
  match s, t with
  | [], [] => true
  | m :: s', n :: t' => Nat.eqb m n && same_sizes s' t'
  | _, _ => false
  end.

Fixpoint zip3 (x y z : list Z) : list bgr :=
  match x, y, z with
  | a :: x', b :: y', c :: z' => (a, b, c) :: zip3 x' y' z'
  | _, _, _ => []
  end.

Fixpoint zip3_rows (x y z : plane) : list (list bgr) :=
  match x, y, z with
  | a :: x', b :: y', c :: z' => zip3 a b c :: zip3_rows x' y' z'
  | _, _, _ => []
  end.

(** [cv2.merge] of three planes; the library asserts that they have one
    size. *)
Definition merge (x y z : plane) : result image :=
  if same_sizes (sizes x) (sizes y) && same_sizes (sizes x) (sizes z)
  then Ok (Color (zip3_rows x y z))
  else Raise cv2_error.

(** ** OpenCV: histograms *)

Definition samples (p : plane) : list Z := concat p.

Definition count_if (f : Z -> bool) (l : list Z) : Z :=
  Z.of_nat (length (filter f l)).

(** [cv2.calcHist(..., [256], [0, 256])] of one plane: bin [i] counts the
    samples equal to [i]. *)
Definition calcHist (p : plane) : list Z :=
  map (fun i => count_if (Z.eqb (Z.of_nat i)) (samples p)) (seq 0 256).

Definition minimum (l : list Z) : Z :=
  match l with
  | [] => 0
  | v :: l' => fold_left Z.min l' v
  end.

(** The look-up table of [cv2.equalizeHist].  With [i0] the first
    non-empty bin, the library leaves a one-valued image as it is and
    otherwise maps [v] to
    saturate_cast<uchar>(sum(hist[i0+1 .. v]) * 255 / (total - hist[i0])),
    the quotient being exact here and a product with the single-precision
    scale 255 / (total - hist[i0]) in the library. *)
Definition equalize_lut (l : list Z) (v : Z) : Z :=
  let i0 := minimum l in
  let total := Z.of_nat (length l) in
  let h0 := count_if (Z.eqb i0) l in
  if h0 =? total then i0
  else
    let sum := count_if (fun s => (i0 <? s) && (s <=? v)) l in
    saturate_cast_uchar (cvRound (inject_Z sum * (255 # 1) / inject_Z (total - h0))).

Definition equalizeHist (p : plane) : plane :=
  map_plane (equalize_lut (samples p)) p.

(** ** OpenCV: colour spaces, 8-bit *)

Definition max3 (a b c : Z) : Z := Z.max a (Z.max b c).
Definition min3 (a b c : Z) : Z := Z.min a (Z.min b c).

(** COLOR_BGR2HSV: V = max, S = 255 (V - min) / V, H = half the angle in
    degrees, in [0, 180).  The two quotients are exact here; the library
    takes them from 12-bit fixed-point tables of reciprocals. *)
Definition bgr2hsv_px (p : bgr) : bgr :=
  let '(b, g, r) := p in
  let v := max3 b g r in
  let diff := v - min3 b g r in
  let s := if v =? 0 then 0 else cvRound (inject_Z (255 * diff) / inject_Z v) in
  let h :=
    if diff =? 0 then 0
    else if v =? r then cvRound (inject_Z (30 * (g - b)) / inject_Z diff)
    else if v =? g then cvRound (inject_Z (30 * (b - r + 2 * diff)) / inject_Z diff)
    else cvRound (inject_Z (30 * (r - g + 4 * diff)) / inject_Z diff) in
  ((if h <? 0 then h + 180 else h), s, v).

(** COLOR_HSV2BGR: the six sectors of the hue circle, in exact arithmetic
    where the library scales to [0, 1] and computes in single precision. *)
Definition hsv2bgr_px (p : bgr) : bgr :=
  let '(h, s, v) := p in
  if s =? 0 then (v, v, v)
  else
    let hh := (inject_Z h / (30 # 1))%Q in
    let sector := Qfloor hh in
    let f := (hh - inject_Z sector)%Q in
    let S := (inject_Z s / (255 # 1))%Q in
    let V := inject_Z v in
    let out (q : Q) := saturate_cast_uchar (cvRound q) in
    let t0 := out V in
    let t1 := out (V * (1 - S))%Q in
    let t2 := out (V * (1 - S * f))%Q in
    let t3 := out (V * (1 - S * (1 - f)))%Q in
    match sector mod 6 with
    | 0 => (t1, t3, t0)
    | 1 => (t1, t0, t2)
    | 2 => (t3, t0, t1)
    | 3 => (t0, t2, t1)
    | 4 => (t0, t1, t3)
    | _ => (t2, t1, t0)
    end.

(** COLOR_BGR2GRAY: Y = 0.299 R + 0.587 G + 0.114 B in 14-bit fixed
    point. *)
Definition bgr2gray_px (p : bgr) : Z :=
  let '(b, g, r) := p in
  Z.shiftr (b * 1868 + g * 9617 + r * 4899 + 8192) 14.

Inductive conversion : Type :=
| COLOR_BGR2HSV
| COLOR_HSV2BGR
| COLOR_BGR2GRAY.

(** [cv2.cvtColor]; each of these codes asserts a three-channel source. *)
Definition cvtColor (img : image) (code : conversion) : result image :=
  match img with
  | Gray _ => Raise cv2_error
  | Color rows =>
      match code with
      | COLOR_BGR2HSV => Ok (Color (map (map bgr2hsv_px) rows))
      | COLOR_HSV2BGR => Ok (Color (map (map hsv2bgr_px) rows))
      | COLOR_BGR2GRAY => Ok (Gray (map (map bgr2gray_px) rows))
      end
  end.

(** ** OpenCV: detectors and drawing

    What the facade calls without the source saying how it is computed.
    [Canny] returns a single-channel edge map; [HoughLines] the (rho, theta)
    pairs, [goodFeaturesToTrack] the corner coordinates, each [None] when
    nothing is found; [line] and [circle] draw on an image; [imread]
    decodes a file with the default flag, which gives a three-channel BGR
    image, and [None] when the file cannot be read or decoded. *)
Record cv_lib : Type := {
  imread : string -> option (list (list bgr));
  Canny : image -> Z -> Z -> plane;
  HoughLines : plane -> R -> R -> Z -> option (list (R * R));
  goodFeaturesToTrack : plane -> Z -> Q -> Z -> option (list (R * R));
  line : image -> Z * Z -> Z * Z -> bgr -> Z -> image;
  circle : image -> Z * Z -> Z -> bgr -> Z -> image;
  imutils_resize : image -> Z -> image
}.

(** Python's [int] on a float: truncation towards zero. *)
Definition py_int (x : R) : Z :=
  if Rle_dec 0 x then Int_part x else - Int_part (- x).

(** The two end points that [detect_lines] computes for one (rho, theta),
    numpy's single-precision [cos] and [sin] read as the real functions. *)
Definition line_endpoints (rho theta : R) : (Z * Z) * (Z * Z) :=
  let a := cos theta in
  let b := sin theta in
  let x0 := (a * rho)%R in
  let y0 := (b * rho)%R in
  let x1 := py_int (x0 + 1000 * (- b))%R in
  let y1 := py_int (y0 + 1000 * a)%R in
  let x2 := py_int (x0 - 1000 * (- b))%R in
  let y2 := py_int (y0 - 1000 * a)%R in
  ((x1, y1), (x2, y2)).

Section ImageProcessor.

Variable cv2 : cv_lib.

Definition histogram_equalization_rgb (img : image) : result image :=
  '(b, g, r) <- unpack3 (split img) ;;
  let b_eq := equalizeHist b in
  let g_eq := equalizeHist g in
  let r_eq := equalizeHist r in
  merge b_eq g_eq r_eq.

Definition histogram_equalization_hsv (img : image) : result image :=
  hsv <- cvtColor img COLOR_BGR2HSV ;;
  '(h, s, v) <- unpack3 (split hsv) ;;
  let v_eq := equalizeHist v in
  hsv_eq <- merge h s v_eq ;;
  cvtColor hsv_eq COLOR_HSV2BGR.

Definition detect_edges (img : image) (threshold1 threshold2 : Z) : image :=
  Gray (Canny cv2 img threshold1 threshold2).

Definition draw_line (result : image) (l : R * R) : image :=
  let '(rho, theta) := l in
  let '(p1, p2) := line_endpoints rho theta in
  line cv2 result p1 p2 (0, 0, 255) 2.

Definition detect_lines (img : image) (rho theta : R) (threshold : Z)
  : image :=
  let edges := Canny cv2 img 50 150 in
  let lines := HoughLines cv2 edges rho theta threshold in
  let result := img in
  match lines with
  | Some ls => fold_left draw_line ls result
  | None => result
  end.

Definition draw_corner (result : image) (corner : R * R) : image :=
  let '(x, y) := corner in
  circle cv2 result (py_int x, py_int y) 5 (0, 255, 0) (-1).

Definition detect_corners (img : image) (max_corners : Z)
           (quality_level : Q) (min_distance : Z) : result image :=
  gray <- cvtColor img COLOR_BGR2GRAY ;;
  match gray with
  | Gray g =>
      let corners :=
        goodFeaturesToTrack cv2 g max_corners quality_level min_distance in
      let result := img in
      match corners with
      | Some cs => Ok (fold_left draw_corner cs result)
      | None => Ok result
      end
  | Color _ => Raise cv2_error
  end.

End ImageProcessor.

(** ** ImageProcessingApp *)

(** The entries of [method_combo], in the order they are added. *)
Inductive method : Type :=
| LinearContrast
| RGBHistogramEqualization
| HSVHistogramEqualization
| EdgeDetection
| LineDetection
| CornerDetection.

Definition method_eqb (m n : method) : bool :=
  match m, n with
  | LinearContrast, LinearContrast
  | RGBHistogramEqualization, RGBHistogramEqualization
  | HSVHistogramEqualization, HSVHistogramEqualization
  | EdgeDetection, EdgeDetection
  | LineDetection, LineDetection
  | CornerDetection, CornerDetection => true
  | _, _ => false
  end.

(** The parameter widgets are attributes that [update_controls] creates
    when their method is selected: [None] is an attribute not set yet,
    [Some v] a widget whose value is [v]. *)
Record controls : Type := {
  method_combo : method;
  alpha_slider : option Z;
  beta_slider : option Z;
  threshold1 : option Z;
  threshold2 : option Z;
  rho_spin : option Z;
  theta_spin : option Z;
  threshold_spin : option Z;
  max_corners : option Z;
  quality_level : option Z;
  min_distance : option Z
}.

(** What a label shows is the resized image it was given; what a histogram
    widget shows is the list of the plotted series. *)
Record App : Type := {
  original_image : option image;
  processed_image : option image;
  original_label : option image;
  processed_label : option image;
  original_histogram : list (list Z);
  processed_histogram : list (list Z);
  ui : controls
}.

Definition set_original_image (s : App) (v : option image) : App :=
  {| original_image := v; processed_image := processed_image s;
     original_label := original_label s; processed_label := processed_label s;
     original_histogram := original_histogram s;
     processed_histogram := processed_histogram s; ui := ui s |}.

Definition set_processed_image (s : App) (v : option image) : App :=
  {| original_image := original_image s; processed_image := v;
     original_label := original_label s; processed_label := processed_label s;
     original_histogram := original_histogram s;
     processed_histogram := processed_histogram s; ui := ui s |}.

Definition set_original_label (s : App) (v : option image) : App :=
  {| original_image := original_image s; processed_image := processed_image s;
     original_label := v; processed_label := processed_label s;
     original_histogram := original_histogram s;
     processed_histogram := processed_histogram s; ui := ui s |}.

Definition set_processed_label (s : App) (v : option image) : App :=
  {| original_image := original_image s; processed_image := processed_image s;
     original_label := original_label s; processed_label := v;
     original_histogram := original_histogram s;
     processed_histogram := processed_histogram s; ui := ui s |}.

Definition set_original_histogram (s : App) (v : list (list Z)) : App :=
  {| original_image := original_image s; processed_image := processed_image s;
     original_label := original_label s; processed_label := processed_label s;
     original_histogram := v;
     processed_histogram := processed_histogram s; ui := ui s |}.

Definition set_processed_histogram (s : App) (v : list (list Z)) : App :=
  {| original_image := original_image s; processed_image := processed_image s;
     original_label := original_label s; processed_label := processed_label s;
     original_histogram := original_histogram s;
     processed_histogram := v; ui := ui s |}.

Definition set_ui (s : App) (v : controls) : App :=
  {| original_image := original_image s; processed_image := processed_image s;
     original_label := original_label s; processed_label := processed_label s;
     original_histogram := original_histogram s;
     processed_histogram := processed_histogram s; ui := v |}.

(** [widget.value()] on an attribute of the window. *)
Definition value (w : option Z) : result Z :=
  match w with
  | Some v => Ok v
  | None => Raise AttributeError
  end.

(** [update_controls]: the widgets of the selected method are created anew
    with their default values; the attributes of the other methods stay. *)
Definition update_controls (c : controls) : controls :=
  match method_combo c with
  | LinearContrast =>
      {| method_combo := method_combo c;
         alpha_slider := Some 10; beta_slider := Some 0;
         threshold1 := threshold1 c; threshold2 := threshold2 c;
         rho_spin := rho_spin c; theta_spin := theta_spin c;
         threshold_spin := threshold_spin c;
         max_corners := max_corners c; quality_level := quality_level c;
         min_distance := min_distance c |}
  | EdgeDetection =>
      {| method_combo := method_combo c;
         alpha_slider := alpha_slider c; beta_slider := beta_slider c;
         threshold1 := Some 100; threshold2 := Some 200;
         rho_spin := rho_spin c; theta_spin := theta_spin c;
         threshold_spin := threshold_spin c;
         max_corners := max_corners c; quality_level := quality_level c;
         min_distance := min_distance c |}
  | LineDetection =>
      {| method_combo := method_combo c;
         alpha_slider := alpha_slider c; beta_slider := beta_slider c;
         threshold1 := threshold1 c; threshold2 := threshold2 c;
         rho_spin := Some 1; theta_spin := Some 180;
         threshold_spin := Some 100;
         max_corners := max_corners c; quality_level := quality_level c;
         min_distance := min_distance c |}
  | CornerDetection =>
      {| method_combo := method_combo c;
         alpha_slider := alpha_slider c; beta_slider := beta_slider c;
         threshold1 := threshold1 c; threshold2 := threshold2 c;
         rho_spin := rho_spin c; theta_spin := theta_spin c;
         threshold_spin := threshold_spin c;
         max_corners := Some 25; quality_level := Some 10;
         min_distance := Some 10 |}
  | RGBHistogramEqualization | HSVHistogramEqualization => c
  end.

Definition set_method (c : controls) (m : method) : controls :=
  {| method_combo := m;
     alpha_slider := alpha_slider c; beta_slider := beta_slider c;
     threshold1 := threshold1 c; threshold2 := threshold2 c;
     rho_spin := rho_spin c; theta_spin := theta_spin c;
     threshold_spin := threshold_spin c;
     max_corners := max_corners c; quality_level := quality_level c;
     min_distance := min_distance c |}.

(** [__init__]: both slots empty, the first method selected and its
    widgets built by [init_ui]. *)
Definition init : App :=
  {| original_image := None; processed_image := None;
     original_label := None; processed_label := None;
     original_histogram := []; processed_histogram := [];
     ui := update_controls
             {| method_combo := LinearContrast;
                alpha_slider := None; beta_slider := None;
                threshold1 := None; threshold2 := None;
                rho_spin := None; theta_spin := None; threshold_spin := None;
                max_corners := None; quality_level := None;
                min_distance := None |} |}.

(** ** Handlers

    A method of the window runs on the state of the window and either
    returns or lets an exception escape; the state it leaves is kept in
    both cases. *)
Definition handler (A : Type) : Type := App -> App * result A.

Definition outcome : Type := (App * result unit)%type.

Definition ret {A : Type} (a : A) : handler A := fun s => (s, Ok a).

Definition lift {A : Type} (r : result A) : handler A := fun s => (s, r).

Definition get {A : Type} (field : App -> A) : handler A :=
  fun s => (s, Ok (field s)).

Definition put {A : Type} (setter : App -> A -> App) (v : A) : handler unit :=
  fun s => (setter s v, Ok tt).

Definition and_then {A B : Type} (m : handler A) (k : A -> handler B)
  : handler B :=
  fun s =>
    match m s with
    | (s', Ok a) => k a s'
    | (s', Raise e) => (s', Raise e)
    end.

Notation "x <~ m ;; k" := (and_then m (fun x => k))
  (at level 61, m at next level, right associativity).
Notation "m ;;; k" := (and_then m (fun _ => k))
  (at level 61, right associativity).

Section ImageProcessingApp.

Variable cv2 : cv_lib.

(** [imutils.resize] and [update_histogram] read [image.shape], which
    [None] does not have. *)
Definition shape_of (img : option image) : result image :=
  match img with
  | Some i => Ok i
  | None => Raise AttributeError
  end.

(** [display_image(image, label)]: the label gets the image resized to
    width 500. *)
Definition display_image (img : option image)
           (label : App -> option image -> App) : handler unit :=
  i <~ lift (shape_of img) ;;
  put label (Some (imutils_resize cv2 i 500)).

(** [HistogramWidget.update_histogram]: the axes are cleared, then one
    series is plotted per channel. *)
Definition update_histogram (widget : App -> list (list Z) -> App)
           (img : option image) : handler unit :=
  put widget [] ;;;
  i <~ lift (shape_of img) ;;
  put widget (map calcHist (split i)).

(** [load_image], given the name the file dialog returned (empty when
    the dialog was cancelled). *)
Definition load_image (file_name : string) : handler unit :=
  if String.eqb file_name EmptyString then ret tt
  else
    put set_original_image (option_map Color (imread cv2 file_name)) ;;;
    img <~ get original_image ;;
    display_image img set_original_label ;;;
    update_histogram set_original_histogram img ;;;
    put set_processed_image None ;;;
    put set_processed_label None ;;;
    put set_processed_histogram [].

(** The branch of [process_image] for the selected method. *)
Definition dispatch (c : controls) (img : image) : result image :=
  match method_combo c with
  | LinearContrast =>
      a <- value (alpha_slider c) ;;
      beta <- value (beta_slider c) ;;
      let alpha := (inject_Z a / (10 # 1))%Q in
      Ok (linear_contrast img alpha (inject_Z beta))
  | RGBHistogramEqualization => histogram_equalization_rgb img
  | HSVHistogramEqualization => histogram_equalization_hsv img
  | EdgeDetection =>
      t1 <- value (threshold1 c) ;;
      t2 <- value (threshold2 c) ;;
      Ok (detect_edges cv2 img t1 t2)
  | LineDetection =>
      rho <- value (rho_spin c) ;;
      n <- value (theta_spin c) ;;
      t <- value (threshold_spin c) ;;
      Ok (detect_lines cv2 img (IZR rho) (PI / IZR n)%R t)
  | CornerDetection =>
      mc <- value (max_corners c) ;;
      q <- value (quality_level c) ;;
      md <- value (min_distance c) ;;
      detect_corners cv2 img mc (inject_Z q / (100 # 1))%Q md
  end.

Definition process_image : handler unit :=
  original <~ get original_image ;;
  match original with
  | None => ret tt
  | Some img =>
      c <~ get ui ;;
      res <~ lift (dispatch c img) ;;
      put set_processed_image (Some res) ;;;
      processed <~ get processed_image ;;
      match processed with
      | Some _ =>
          display_image processed set_processed_label ;;;
          update_histogram set_processed_histogram processed
      | None => ret tt
      end
  end.

(** [resizeEvent]: both previews are derived again from the slots. *)
Definition resizeEvent : handler unit :=
  original <~ get original_image ;;
  match original with
  | Some _ => display_image original set_original_label
  | None => ret tt
  end ;;;
  processed <~ get processed_image ;;
  match processed with
  | Some _ => display_image processed set_processed_label
  | None => ret tt
  end.

(** Choosing an entry of the combo box: [currentIndexChanged] fires, and
    [update_controls] runs, only when the entry changes. *)
Definition select_method (m : method) : handler unit :=
  c <~ get ui ;;
  if method_eqb m (method_combo c) then ret tt
  else put set_ui (update_controls (set_method c m)).

End ImageProcessingApp.

(** ** The event loop *)

Inductive widget : Type :=
| w_alpha_slider | w_beta_slider
| w_threshold1 | w_threshold2
| w_rho_spin | w_theta_spin | w_threshold_spin
| w_max_corners | w_quality_level | w_min_distance.

(** The widgets that [update_controls] shows for a method. *)
Definition panel (m : method) : list widget :=
  match m with
  | LinearContrast => [w_alpha_slider; w_beta_slider]
  | EdgeDetection => [w_threshold1; w_threshold2]
  | LineDetection => [w_rho_spin; w_theta_spin; w_threshold_spin]
  | CornerDetection => [w_max_corners; w_quality_level; w_min_distance]
  | RGBHistogramEqualization | HSVHistogramEqualization => []
  end.

(** The bounds given to [setRange]. *)
Definition range (w : widget) : Z * Z :=
  match w with
  | w_alpha_slider => (10, 30)
  | w_beta_slider => (-50, 50)
  | w_threshold1 | w_threshold2 => (0, 255)
  | w_rho_spin => (1, 10)
  | w_theta_spin => (1, 180)
  | w_threshold_spin => (0, 200)
  | w_max_corners | w_quality_level | w_min_distance => (1, 100)
  end.

Definition widget_eqb (v w : widget) : bool :=
  match v, w with
  | w_alpha_slider, w_alpha_slider | w_beta_slider, w_beta_slider
  | w_threshold1, w_threshold1 | w_threshold2, w_threshold2
  | w_rho_spin, w_rho_spin | w_theta_spin, w_theta_spin
  | w_threshold_spin, w_threshold_spin
  | w_max_corners, w_max_corners | w_quality_level, w_quality_level
  | w_min_distance, w_min_distance => true
  | _, _ => false
  end.

Definition set_widget (c : controls) (w : widget) (v : Z) : controls :=
  let pick (x : widget) (old : option Z) :=
    if widget_eqb x w then Some v else old in
  {| method_combo := method_combo c;
     alpha_slider := pick w_alpha_slider (alpha_slider c);
     beta_slider := pick w_beta_slider (beta_slider c);
     threshold1 := pick w_threshold1 (threshold1 c);
     threshold2 := pick w_threshold2 (threshold2 c);
     rho_spin := pick w_rho_spin (rho_spin c);
     theta_spin := pick w_theta_spin (theta_spin c);
     threshold_spin := pick w_threshold_spin (threshold_spin c);
     max_corners := pick w_max_corners (max_corners c);
     quality_level := pick w_quality_level (quality_level c);
     min_distance := pick w_min_distance (min_distance c) |}.

(** The user moves a widget of the panel on screen; Qt keeps the value
    inside the range of the widget. *)
Definition adjust (w : widget) (v : Z) : handler unit :=
  c <~ get ui ;;
  if existsb (widget_eqb w) (panel (method_combo c))
  then put set_ui (set_widget c w (clamp (fst (range w)) (snd (range w)) v))
  else ret tt.

Inductive event : Type :=
| Load (file_name : string)
| Select (m : method)
| Adjust (w : widget) (v : Z)
| Process
| Resize.

Definition handle (cv2 : cv_lib) (e : event) : handler unit :=
  match e with
  | Load file_name => load_image cv2 file_name
  | Select m => select_method m
  | Adjust w v => adjust w v
  | Process => process_image cv2
  | Resize => resizeEvent cv2
  end.

(** The window after a sequence of events.  An exception that escapes a
    handler leaves the state as the handler left it. *)
Definition run (cv2 : cv_lib) (es : list event) (s : App) : App :=
  fold_left (fun st e => fst (handle cv2 e st)) es s.

(** ** Vocabulary of the properties *)

(** [z] is [q] rounded to a nearest integer: to either neighbour when [q]
    lies half-way between two. *)
Definition nearest_to (z : Z) (q : Q) : Prop :=
  (Qabs (inject_Z z - q) <= 1 # 2)%Q.

(** A rational capped at 255, and clamped to the interval from 0 to 255. *)
Definition cap255 (q : Q) : Q := if Qlt_le_dec 255 q then 255%Q else q.

Definition clamp255 (q : Q) : Q := if Qlt_le_dec q 0 then 0%Q else cap255 q.

(** The features a detector reports: none when it returns [None]. *)
Definition found {A : Type} (o : option (list A)) : list A :=
  match o with
  | Some l => l
  | None => []
  end.


Definition hue (p : bgr) : Z := fst (fst (bgr2hsv_px p)).
Definition saturation (p : bgr) : Z := snd (fst (bgr2hsv_px p)).
Definition brightness (p : bgr) : Z := snd (bgr2hsv_px p).


(** The value table that [histogram_equalization_hsv] builds for an
    image. *)
Definition value_lut (rows : list (list bgr)) : Z -> Z :=
  equalize_lut
    (samples (column (fun p => snd p) (map (map bgr2hsv_px) rows))).

(** *** Lines in polar form *)

Local Open Scope R_scope.

(** The line that the pair (rho, theta) stands for:
    x cos(theta) + y sin(theta) = rho. *)
Definition on_polar_line (rho theta x y : R) : Prop :=
  x * cos theta + y * sin theta = rho.

Definition closest_to_origin (rho theta x0 y0 : R) : Prop :=
  on_polar_line rho theta x0 y0 /\
  forall x y, on_polar_line rho theta x y -> x0 * x0 + y0 * y0 <= x * x + y * y.

(** A vector of length one along every line of normal angle [theta]. *)
Definition unit_direction (theta dx dy : R) : Prop :=
  dx * dx + dy * dy = 1 /\
  forall rho x y t,
    on_polar_line rho theta x y ->
    on_polar_line rho theta (x + t * dx) (y + t * dy).

(** The pixel coordinate [z] is less than one pixel away from [x]. *)
Definition within_a_pixel (z : Z) (x : R) : Prop := Rabs (IZR z - x) < 1.

(** A segment that reaches 1000 units to each side of the point of the
    line closest to the origin: each coordinate of its two end points is
    within a pixel of the exact one. *)
Definition extended_segment (l : R * R) (seg : (Z * Z) * (Z * Z)) : Prop :=
  exists x0 y0 dx dy,
    closest_to_origin (fst l) (snd l) x0 y0 /\
    unit_direction (snd l) dx dy /\
    within_a_pixel (fst (fst seg)) (x0 + 1000 * dx) /\
    within_a_pixel (snd (fst seg)) (y0 + 1000 * dy) /\
    within_a_pixel (fst (snd seg)) (x0 - 1000 * dx) /\
    within_a_pixel (snd (snd seg)) (y0 - 1000 * dy).

Local Close Scope R_scope.

(** Drawing one segment in the highlight colour, two pixels thick. *)
Definition draw_segment (cv2 : cv_lib) (result : image)
           (seg : (Z * Z) * (Z * Z)) : image :=
  line cv2 result (fst seg) (snd seg) (0, 0, 255) 2.

(** *** Sessions *)

(** A load that went through: a file was chosen and the handler returned. *)
Definition successful_load (cv2 : cv_lib) (s : App) (file_name : string) : Prop :=
  file_name <> EmptyString /\ snd (load_image cv2 file_name s) = Ok tt.

(** A run of the selected method that went through: there was a source
    image and the handler returned. *)
Definition successful_process (cv2 : cv_lib) (s : App) : Prop :=
  original_image s <> None /\ snd (process_image cv2 s) = Ok tt.

(** No event of [es], handled in turn from [s], is a successful load. *)
Fixpoint no_load_succeeds (cv2 : cv_lib) (s : App) (es : list event) : Prop :=
  match es with
  | [] => True
  | e :: es' =>
      match e with
      | Load g => ~ successful_load cv2 s g
      | _ => True
      end /\ no_load_succeeds cv2 (fst (handle cv2 e s)) es'
  end.

(** ** A library instance for closed examples

    It decodes one file name, detects nothing and draws nothing.  The
    theorems below hold for every [cv_lib]; this one only serves to run
    them on concrete windows. *)
Definition blank_cv : cv_lib :=
  {| imread := fun name =>
       if String.eqb name "flat.png" then Some [[(9, 9, 9); (9, 9, 9)]]
       else None;
     Canny := fun img _ _ =>
       match img with
       | Gray rows => map_plane (fun _ => 0) rows
       | Color rows => map (map (fun _ => 0)) rows
       end;
     HoughLines := fun _ _ _ _ => None;
     goodFeaturesToTrack := fun _ _ _ _ => None;
     line := fun img _ _ _ _ => img;
     circle := fun img _ _ _ _ => img;
     imutils_resize := fun img _ => img |}.

(** A second instance, which finds the vertical line x = 1 in every edge
    map and draws a vertical segment by colouring its column. *)
Definition paint_column (img : image) (x : Z) (colour : bgr) : image :=
  match img with
  | Gray rows => Gray rows
  | Color rows =>
      Color (map (fun row =>
                    map (fun ip : nat * bgr =>
                           if Z.of_nat (fst ip) =? x then colour else snd ip)
                        (combine (seq 0 (length row)) row))
                 rows)
  end.

Definition ruled_cv : cv_lib :=
  {| imread := imread blank_cv;
     Canny := Canny blank_cv;
     HoughLines := fun _ _ _ _ => Some [(IZR 1, IZR 0)];
     goodFeaturesToTrack := fun _ _ _ _ => None;
     line := fun img p q colour _ =>
       if fst p =? fst q then paint_column img (fst p) colour else img;
     circle := fun img _ _ _ _ => img;
     imutils_resize := fun img _ => img |}.

Definition flat : image := Color [[(9, 9, 9); (9, 9, 9)]].

(** A window in which [flat] was loaded and processed with the default
    method. *)
Definition loaded_and_processed : App :=
  run blank_cv [Load "flat.png"; Process] init.

(** ** Vocabulary of the further properties *)

Definition valid_plane (p : plane) : Prop := Forall (Forall is_uchar) p.

(** The plane of channel [c] of an image, and the samples in it. *)
Definition channel_plane (img : image) (c : nat) : plane :=
  nth c (split img) [].

Definition channel_samples (img : image) (c : nat) : list Z :=
  samples (channel_plane img c).

(** Every pixel of the image is [p0]. *)
Definition uniform (p0 : bgr) (rows : list (list bgr)) : Prop :=
  Forall (Forall (eq p0)) rows.

(** Every pixel of the image has its three channels equal. *)
Definition grey_pixel (p : bgr) : Prop :=
  let '(b, g, r) := p in b = g /\ g = r.

Definition grey_valued (rows : list (list bgr)) : Prop :=
  Forall (Forall grey_pixel) rows.

Definition sum_Z (l : list Z) : Z := fold_right Z.add 0 l.

(** The number of pixels of an image. *)
Definition pixel_count (img : image) : nat :=
  match img with
  | Gray rows => length (concat rows)
  | Color rows => length (concat rows)
  end.

(** The table that [equalizeHist] applies to channel [c] of an image. *)
Definition channel_lut (img : image) (c : nat) : Z -> Z :=
  equalize_lut (channel_samples img c).

(** One pixel sent through the tables of its three channels. *)
Definition equalize_bgr (img : image) (p : bgr) : bgr :=
  (channel_lut img 0 (fst (fst p)), channel_lut img 1 (snd (fst p)),
   channel_lut img 2 (snd p)).

(** [getattr(self, name)] for the parameter widgets. *)
Definition widget_value (c : controls) (w : widget) : option Z :=
  match w with
  | w_alpha_slider => alpha_slider c
  | w_beta_slider => beta_slider c
  | w_threshold1 => threshold1 c
  | w_threshold2 => threshold2 c
  | w_rho_spin => rho_spin c
  | w_theta_spin => theta_spin c
  | w_threshold_spin => threshold_spin c
  | w_max_corners => max_corners c
  | w_quality_level => quality_level c
  | w_min_distance => min_distance c
  end.

(** The values given to [setValue] in [update_controls]. *)
Definition default_value (w : widget) : Z :=
  match w with
  | w_alpha_slider => 10
  | w_beta_slider => 0
  | w_threshold1 => 100
  | w_threshold2 => 200
  | w_rho_spin => 1
  | w_theta_spin => 180
  | w_threshold_spin => 100
  | w_max_corners => 25
  | w_quality_level => 10
  | w_min_distance => 10
  end.

Definition in_range (w : widget) (v : Z) : Prop :=
  fst (range w) <= v <= snd (range w).

(** Every widget of the panel on screen exists and holds a value of its
    range. *)
Definition controls_ready (c : controls) : Prop :=
  forall w, In w (panel (method_combo c)) ->
            exists v, widget_value c w = Some v /\ in_range w v.

(** A slot that is empty or holds a three-channel image. *)
Definition three_channel (slot : option image) : Prop :=
  match slot with
  | Some (Gray _) => False
  | _ => True
  end.

(** What a histogram widget shows for a slot. *)
Definition plotted (slot : option image) : list (list Z) :=
  match slot with
  | Some i => map calcHist (split i)
  | None => []
  end.

(** The previews follow the slots: the processed label and histogram show
    the processed slot, and the original ones show the original slot
    whenever it holds an image. *)
Definition previews_current (cv2 : cv_lib) (s : App) : Prop :=
  processed_label s =
    option_map (fun i => imutils_resize cv2 i 500) (processed_image s) /\
  processed_histogram s = plotted (processed_image s) /\
  forall i, original_image s = Some i ->
            original_label s = Some (imutils_resize cv2 i 500) /\
            original_histogram s = plotted (Some i).

(** What holds of the window at every point of a session. *)
Definition session_ok (cv2 : cv_lib) (s : App) : Prop :=
  controls_ready (ui s) /\
  three_channel (original_image s) /\
  previews_current cv2 s.







(** * Properties *)

(** ** Rounding and saturation *)

Lemma cvRound_comp (p q : Q) : (p == q)%Q -> cvRound p = cvRound q.
Proof.
  intros E. unfold cvRound.
  rewrite (Qfloor_comp _ _ E).
  assert (C : ((p - inject_Z (Qfloor q) ?= 1 # 2) =
               (q - inject_Z (Qfloor q) ?= 1 # 2))%Q).
  { apply Qcompare_comp; [ rewrite E; reflexivity | reflexivity ]. }
  rewrite C. reflexivity.
Qed.

Lemma cvRound_inject_Z (z : Z) : cvRound (inject_Z z) = z.
Proof.
  unfold cvRound. rewrite Qfloor_Z.
  assert (L : (inject_Z z - inject_Z z < 1 # 2)%Q).
  { assert (E : (inject_Z z - inject_Z z == 0)%Q) by ring.
    rewrite E. reflexivity. }
  pose proof (proj1 (Qlt_alt _ _) L) as C.
  rewrite C. reflexivity.
Qed.

Lemma cvRound_nonneg (q : Q) : (0 <= q)%Q -> 0 <= cvRound q.
Proof.
  intros H. unfold cvRound.
  assert (F : 0 <= Qfloor q).
  { change 0 with (Qfloor 0). apply Qfloor_resp_le. exact H. }
  destruct (q - inject_Z (Qfloor q) ?= 1 # 2)%Q; [ | lia | lia ].
  destruct (Z.even (Qfloor q)); lia.
Qed.

Lemma saturate_nonneg (z : Z) : 0 <= z -> saturate_cast_uchar z = Z.min 255 z.
Proof. unfold saturate_cast_uchar. lia. Qed.

Lemma saturate_uchar (z : Z) : is_uchar z -> saturate_cast_uchar z = z.
Proof. unfold saturate_cast_uchar, is_uchar. lia. Qed.

Lemma cvRound_bounds (q : Q) : Qfloor q <= cvRound q <= Qfloor q + 1.
Proof.
  unfold cvRound.
  destruct (q - inject_Z (Qfloor q) ?= 1 # 2)%Q; [ | lia | lia ].
  destruct (Z.even (Qfloor q)); lia.
Qed.

Lemma cvRound_le (p q : Q) : (p <= q)%Q -> cvRound p <= cvRound q.
Proof.
  intros H. pose proof (Qfloor_resp_le _ _ H) as F.
  destruct (Z.eq_dec (Qfloor p) (Qfloor q)) as [E|N].
  - unfold cvRound. rewrite E.
    destruct (Qcompare_spec (p - inject_Z (Qfloor q)) (1 # 2)) as [P|P|P];
      destruct (Qcompare_spec (q - inject_Z (Qfloor q)) (1 # 2)) as [R|R|R];
      try (destruct (Z.even (Qfloor q))); try lia; exfalso; lra.
  - pose proof (cvRound_bounds p). pose proof (cvRound_bounds q). lia.
Qed.

Lemma saturate_is_uchar (z : Z) : is_uchar (saturate_cast_uchar z).
Proof. unfold is_uchar, saturate_cast_uchar. lia. Qed.

Lemma saturate_le (y z : Z) :
  y <= z -> saturate_cast_uchar y <= saturate_cast_uchar z.
Proof. unfold saturate_cast_uchar. lia. Qed.

(** [cvRound] moves a number by at most one half. *)
Lemma cvRound_near (q : Q) : (Qabs (inject_Z (cvRound q) - q) <= 1 # 2)%Q.
Proof.
  pose proof (Qfloor_le q) as L. pose proof (Qlt_floor q) as U.
  rewrite inject_Z_plus in U. apply Qabs_Qle_condition.
  unfold cvRound.
  destruct (Qcompare_spec (q - inject_Z (Qfloor q)) (1 # 2)) as [E|E|E];
    [ destruct (Z.even (Qfloor q)) | | ];
    rewrite ?inject_Z_plus; change (inject_Z 1) with 1%Q in *;
    set (a := inject_Z (Qfloor q)) in *; clearbody a; split; lra.
Qed.

(** ** Element-wise transforms *)

Lemma width_map {A B : Type} (f : A -> B) (rows : list (list A)) :
  width (map (map f) rows) = width rows.
Proof. destruct rows as [|r rows]; simpl; [ reflexivity | apply length_map ]. Qed.

Lemma shape_map_samples (f : Z -> Z) (img : image) :
  shape (map_samples f img) = shape img.
Proof.
  destruct img as [rows|rows]; simpl; unfold map_plane;
    rewrite length_map, width_map; reflexivity.
Qed.

Lemma pixel_map_samples (f : Z -> Z) (img : image) (y x c : nat) :
  pixel (map_samples f img) y x c = option_map f (pixel img y x c).
Proof.
  destruct img as [rows|rows]; simpl; unfold map_plane;
    rewrite nth_error_map; destruct (nth_error rows y) as [row|]; simpl;
    try reflexivity.
  - destruct c; [ apply nth_error_map | reflexivity ].
  - rewrite nth_error_map. destruct (nth_error row x) as [[[b g] r]|]; simpl;
      [ | reflexivity ].
    destruct c as [|[|[|c]]]; reflexivity.
Qed.

Lemma map_samples_id (f : Z -> Z) (img : image) :
  (forall v, is_uchar v -> f v = v) -> valid_image img -> map_samples f img = img.
Proof.
  intros Hf Hv. destruct img as [rows|rows]; simpl in *; f_equal.
  - unfold map_plane. induction Hv as [|row rows Hrow _ IH]; simpl;
      [ reflexivity | ].
    f_equal; [ | exact IH ].
    induction Hrow as [|v row Hv' _ IHrow]; simpl; [ reflexivity | ].
    rewrite (Hf v Hv'), IHrow. reflexivity.
  - induction Hv as [|row rows Hrow _ IH]; simpl; [ reflexivity | ].
    f_equal; [ | exact IH ].
    induction Hrow as [|[[b g] r] row Hp _ IHrow]; simpl; [ reflexivity | ].
    destruct Hp as (Hb & Hg & Hr).
    rewrite (Hf b Hb), (Hf g Hg), (Hf r Hr), IHrow. reflexivity.
Qed.

(** ** Linear contrast *)

Lemma convertScaleAbs_px_min (alpha beta : Q) (v : Z) :
  convertScaleAbs_px alpha beta v =
  Z.min 255 (cvRound (Qabs (inject_Z v * alpha + beta))).
Proof.
  unfold convertScaleAbs_px. apply saturate_nonneg, cvRound_nonneg, Qabs_nonneg.
Qed.

Lemma convertScaleAbs_px_clamp (alpha beta : Q) (v : Z) :
  (0 <= inject_Z v * alpha + beta)%Q ->
  convertScaleAbs_px alpha beta v = spec_contrast_px alpha beta v.
Proof.
  intros H. unfold convertScaleAbs_px, spec_contrast_px, clamp, saturate_cast_uchar.
  rewrite (cvRound_comp _ _ (Qabs_pos _ H)). reflexivity.
Qed.

(** C1, as the specification states it, fails: on a black pixel with
    alpha = 1.0 and beta = -50 the code stores |0 - 50| = 50 where
    clamp(alpha * input + beta, 0, 255) is 0. *)
Lemma linear_contrast_clamp_fails :
  ~ (forall (img : image) (alpha : Q) (beta : Z),
        (1 <= alpha <= 3)%Q -> -50 <= beta <= 50 ->
        shape (linear_contrast img alpha (inject_Z beta)) = shape img /\
        forall y x c v,
          pixel img y x c = Some v ->
          pixel (linear_contrast img alpha (inject_Z beta)) y x c =
          Some (spec_contrast_px alpha (inject_Z beta) v)).
Proof.
  intros H.
  assert (A : (1 <= 1 <= 3)%Q) by (split; discriminate).
  assert (B : -50 <= -50 <= 50) by lia.
  destruct (H (Color [[(0, 0, 0)]]) 1%Q (-50) A B) as [_ P].
  specialize (P 0%nat 0%nat 0%nat 0 eq_refl).
  vm_compute in P. discriminate P.
Qed.

Lemma saturate_nearest (r : Z) (q : Q) :
  (0 <= q)%Q -> nearest_to r q -> cvRound q = r ->
  nearest_to (saturate_cast_uchar r) (cap255 q).
Proof.
  intros Hq Hn Hr. unfold cap255, nearest_to in *.
  destruct (Qlt_le_dec 255 q) as [Hi|Lo].
  - assert (R : 255 <= r).
    { rewrite <- Hr, <- (cvRound_inject_Z 255). apply cvRound_le.
      apply Qlt_le_weak. exact Hi. }
    unfold saturate_cast_uchar.
    replace (Z.max 0 (Z.min 255 r)) with 255 by lia. discriminate.
  - assert (R : 0 <= r <= 255).
    { rewrite <- Hr. split.
      - apply cvRound_nonneg. exact Hq.
      - rewrite <- (cvRound_inject_Z 255). apply cvRound_le. exact Lo. }
    rewrite saturate_uchar by exact R. exact Hn.
Qed.

(** C1, amended: for alpha in [1.0, 3.0] in the steps of 0.1 that the slider
    gives and an integer beta in [-50, 50] the linear contrast operation
    returns an image of the same shape in which every sample is a value of
    0..255 that is |alpha * input + beta|, capped at 255, rounded to a
    nearest integer; wherever alpha * input + beta is not negative this is
    clamp(alpha * input + beta, 0, 255) so rounded. *)
Theorem linear_contrast_abs_saturate :
  forall (img : image) (k beta : Z),
    10 <= k <= 30 -> -50 <= beta <= 50 ->
    let alpha := (inject_Z k / (10 # 1))%Q in
    let out := linear_contrast img alpha (inject_Z beta) in
    shape out = shape img /\
    forall y x c v,
      pixel img y x c = Some v ->
      exists o,
        pixel out y x c = Some o /\
        0 <= o <= 255 /\
        nearest_to o (cap255 (Qabs (inject_Z v * alpha + inject_Z beta))) /\
        ((0 <= inject_Z v * alpha + inject_Z beta)%Q ->
         nearest_to o (clamp255 (inject_Z v * alpha + inject_Z beta))).
Proof.
  intros img k beta _ _ alpha out. subst out.
  unfold linear_contrast, convertScaleAbs. split.
  - apply shape_map_samples.
  - intros y x c v Hv. rewrite pixel_map_samples, Hv. simpl.
    eexists. split; [ reflexivity | ].
    set (q := (inject_Z v * alpha + inject_Z beta)%Q).
    assert (N : nearest_to (convertScaleAbs_px alpha (inject_Z beta) v)
                           (cap255 (Qabs q))).
    { unfold convertScaleAbs_px. fold q.
      apply saturate_nearest; [ apply Qabs_nonneg | apply cvRound_near | reflexivity ]. }
    split; [ apply saturate_is_uchar | split; [ exact N | ] ].
    intros Hpos. unfold clamp255.
    destruct (Qlt_le_dec q 0) as [Neg|_].
    + exfalso. apply (Qlt_not_le _ _ Neg). exact Hpos.
    + unfold nearest_to, cap255 in *.
      destruct (Qlt_le_dec 255 (Qabs q)) as [A|A];
        destruct (Qlt_le_dec 255 q) as [B|B]; try exact N;
        rewrite (Qabs_pos _ Hpos) in *.
      * exfalso. apply (Qlt_not_le _ _ A). exact B.
      * exfalso. apply (Qlt_not_le _ _ B). exact A.
      * exact N.
Qed.

Lemma linear_contrast_abs_saturate_witness :
  exists o,
    pixel (linear_contrast (Color [[(0, 95, 250)]])
             (inject_Z 13 / (10 # 1)) (inject_Z 0)) 0 0 1 = Some o /\
    0 <= o <= 255 /\
    nearest_to o (cap255 (Qabs (inject_Z 95 * (inject_Z 13 / (10 # 1))
                              + inject_Z 0))) /\
    ((0 <= inject_Z 95 * (inject_Z 13 / (10 # 1)) + inject_Z 0)%Q ->
     nearest_to o (clamp255 (inject_Z 95 * (inject_Z 13 / (10 # 1))
                             + inject_Z 0))).
Proof.
  assert (K : 10 <= 13 <= 30) by lia.
  assert (B : -50 <= 0 <= 50) by lia.
  destruct (linear_contrast_abs_saturate (Color [[(0, 95, 250)]]) 13 0 K B)
    as [_ P].
  exact (P 0%nat 0%nat 1%nat 95 eq_refl).
Defined.

(** C3: with alpha = 1.0 and beta = 0 the linear contrast operation returns
    every valid (8-bit) image unchanged, sample for sample.  The scale is
    taken up to equality of rationals, so that the 10 / 10.0 which
    [process_image] computes from the slider is covered. *)
Theorem linear_contrast_identity :
  forall (img : image) (alpha beta : Q),
    (alpha == 1)%Q -> (beta == 0)%Q -> valid_image img ->
    linear_contrast img alpha beta = img.
Proof.
  intros img alpha beta Ha Hb Hv. unfold linear_contrast, convertScaleAbs.
  apply map_samples_id; [ | exact Hv ].
  intros v Hu. unfold convertScaleAbs_px.
  assert (E0 : (inject_Z v * alpha + beta == inject_Z v)%Q).
  { rewrite Ha, Hb. ring. }
  assert (E : (Qabs (inject_Z v * alpha + beta) == inject_Z v)%Q).
  { rewrite Qabs_pos; [ exact E0 | ].
    rewrite E0. change 0%Q with (inject_Z 0). rewrite <- Zle_Qle.
    destruct Hu as [Hu _]; exact Hu. }
  rewrite (cvRound_comp _ _ E), cvRound_inject_Z.
  apply saturate_uchar. exact Hu.
Qed.

Lemma linear_contrast_identity_witness :
  linear_contrast (Color [[(0, 128, 255); (7, 7, 7)]]) (10 # 10) 0 =
  Color [[(0, 128, 255); (7, 7, 7)]].
Proof.
  apply linear_contrast_identity.
  - reflexivity.
  - reflexivity.
  - simpl. repeat constructor; unfold is_uchar; lia.
Defined.

(** ** The session controller *)

Ltac run_handler :=
  unfold and_then, get, put, lift, ret; simpl.

(** The guard at the head of [process_image]. *)
Lemma process_image_guard (cv2 : cv_lib) (s : App) :
  original_image s = None -> process_image cv2 s = (s, Ok tt).
Proof.
  intros H. unfold process_image. run_handler. rewrite H. reflexivity.
Qed.

(** C4: with an empty original slot [process_image] returns at once,
    whatever method and parameter values are selected: no exception
    escapes, neither slot changes, neither label and neither histogram
    changes, and the widgets keep their values. *)
Theorem process_image_without_source :
  forall (cv2 : cv_lib) (s : App),
    original_image s = None ->
    let s' := fst (process_image cv2 s) in
    snd (process_image cv2 s) = Ok tt /\
    original_image s' = None /\
    processed_image s' = processed_image s /\
    original_label s' = original_label s /\
    processed_label s' = processed_label s /\
    original_histogram s' = original_histogram s /\
    processed_histogram s' = processed_histogram s /\
    ui s' = ui s /\
    s' = s.
Proof.
  intros cv2 s H s'. subst s'. rewrite (process_image_guard cv2 s H). simpl.
  repeat split; try reflexivity. exact H.
Qed.

Lemma process_image_without_source_witness :
  snd (process_image blank_cv (run blank_cv [Select CornerDetection] init))
    = Ok tt /\
  fst (process_image blank_cv (run blank_cv [Select CornerDetection] init))
    = run blank_cv [Select CornerDetection] init.
Proof.
  pose proof (process_image_without_source
                blank_cv (run blank_cv [Select CornerDetection] init) eq_refl)
    as H.
  split; [ apply H | apply (proj2 H) ].
Defined.

(** What [load_image] does with a name that [imread] cannot decode: the
    original slot is overwritten with [None] and [display_image] lets an
    [AttributeError] escape; nothing else is touched. *)
Theorem load_image_undecodable :
  forall (cv2 : cv_lib) (s : App) (file_name : string),
    file_name <> EmptyString ->
    imread cv2 file_name = None ->
    load_image cv2 file_name s =
      (set_original_image s None, Raise AttributeError).
Proof.
  intros cv2 s f Hf Hr. unfold load_image.
  destruct (String.eqb_spec f EmptyString) as [E|_]; [ contradiction | ].
  unfold display_image, update_histogram. run_handler. rewrite Hr. reflexivity.
Qed.

Lemma load_image_undecodable_witness :
  load_image blank_cv "missing.png" loaded_and_processed =
    (set_original_image loaded_and_processed None, Raise AttributeError) /\
  original_image loaded_and_processed = Some flat /\
  original_image (fst (load_image blank_cv "missing.png" loaded_and_processed))
    = None.
Proof.
  split; [ | split; reflexivity ].
  apply load_image_undecodable; [ discriminate | reflexivity ].
Defined.

(** C2, on the code: loading a name that does not decode into a window
    that holds an image does not leave the session as it was; the original
    slot is emptied, while the processed slot and both previews keep
    showing the earlier image. *)
Lemma load_image_undecodable_changes_session :
  let s' := fst (load_image blank_cv "missing.png" loaded_and_processed) in
  snd (load_image blank_cv "missing.png" loaded_and_processed)
    = Raise AttributeError /\
  s' <> loaded_and_processed /\
  original_image s' = None /\
  processed_image s' = processed_image loaded_and_processed /\
  original_label s' = Some flat.
Proof.
  vm_compute. repeat split; try reflexivity. discriminate.
Qed.

Lemma process_image_result (cv2 : cv_lib) (s : App) (img res : image) :
  original_image s = Some img ->
  dispatch cv2 (ui s) img = Ok res ->
  process_image cv2 s =
    (set_processed_histogram
       (set_processed_label (set_processed_image s (Some res))
          (Some (imutils_resize cv2 res 500)))
       (map calcHist (split res)), Ok tt).
Proof.
  intros Ho Hd. unfold process_image, display_image, update_histogram.
  run_handler. rewrite Ho. simpl. rewrite Hd. reflexivity.
Qed.

Lemma process_image_raises (cv2 : cv_lib) (s : App) (img : image) (e : exn) :
  original_image s = Some img ->
  dispatch cv2 (ui s) img = Raise e ->
  process_image cv2 s = (s, Raise e).
Proof.
  intros Ho Hd. unfold process_image. run_handler. rewrite Ho. simpl.
  rewrite Hd. reflexivity.
Qed.

Lemma process_image_twice (cv2 : cv_lib) (s : App) :
  process_image cv2 (fst (process_image cv2 s)) = process_image cv2 s.
Proof.
  destruct (original_image s) as [img|] eqn:Ho.
  - destruct (dispatch cv2 (ui s) img) as [res|e] eqn:Hd.
    + rewrite (process_image_result cv2 s img res Ho Hd). simpl.
      erewrite process_image_result; [ reflexivity | exact Ho | exact Hd ].
    + rewrite (process_image_raises cv2 s img e Ho Hd). simpl.
      apply process_image_raises with (img := img); assumption.
  - rewrite (process_image_guard cv2 s Ho). simpl.
    apply process_image_guard. exact Ho.
Qed.

Lemma process_image_repeated (cv2 : cv_lib) (n : nat) :
  forall s, run cv2 (repeat Process (S n)) s = fst (process_image cv2 s).
Proof.
  induction n as [|n IH]; intros s.
  - reflexivity.
  - change (repeat Process (S (S n))) with (Process :: repeat Process (S n)).
    change (run cv2 (Process :: repeat Process (S n)) s)
      with (run cv2 (repeat Process (S n)) (fst (process_image cv2 s))).
    rewrite IH, process_image_twice. reflexivity.
Qed.

(** C9: [process_image] computes the processed image from the original slot
    and the widgets alone, whatever the processed slot holds, so running it
    again changes nothing: the second call leaves the very state, and the
    very outcome, of the first, and so does every later one. *)
Theorem process_image_idempotent :
  forall (cv2 : cv_lib) (s : App),
    process_image cv2 (fst (process_image cv2 s)) = process_image cv2 s /\
    (forall n : nat,
        run cv2 (repeat Process (S n)) s = fst (process_image cv2 s)) /\
    forall (stale : option image) (img res : image),
      original_image s = Some img ->
      dispatch cv2 (ui s) img = Ok res ->
      processed_image (fst (process_image cv2 (set_processed_image s stale)))
        = Some res /\
      processed_image (fst (process_image cv2 s)) = Some res.
Proof.
  intros cv2 s. split; [ apply process_image_twice | split ].
  - intros n. apply process_image_repeated.
  - intros stale img res Ho Hd. split.
    + erewrite process_image_result; [ reflexivity | exact Ho | exact Hd ].
    + erewrite process_image_result; [ reflexivity | exact Ho | exact Hd ].
Qed.

Lemma process_image_idempotent_witness :
  processed_image
    (fst (process_image blank_cv
            (set_processed_image loaded_and_processed None))) = Some flat /\
  processed_image (fst (process_image blank_cv loaded_and_processed))
    = Some flat.
Proof.
  apply (proj2 (proj2 (process_image_idempotent blank_cv loaded_and_processed))
               None flat flat); reflexivity.
Defined.

(** ** Detection with nothing to draw *)

(** C5: when the line transform reports no line, [detect_lines] returns the
    input image; when the corner detector reports no corner,
    [detect_corners] returns the input image and raises nothing. *)
Theorem detection_without_features :
  forall (cv2 : cv_lib) (img : image),
    (forall rho theta threshold,
        found (HoughLines cv2 (Canny cv2 img 50 150) rho theta threshold) = [] ->
        detect_lines cv2 img rho theta threshold = img) /\
    (forall gray max_corners quality_level min_distance,
        cvtColor img COLOR_BGR2GRAY = Ok (Gray gray) ->
        found (goodFeaturesToTrack cv2 gray max_corners quality_level
                 min_distance) = [] ->
        detect_corners cv2 img max_corners quality_level min_distance = Ok img).
Proof.
  intros cv2 img. split.
  - intros rho theta threshold H. unfold detect_lines.
    destruct (HoughLines cv2 (Canny cv2 img 50 150) rho theta threshold)
      as [ls|]; simpl in H; [ subst ls | ]; reflexivity.
  - intros gray mc q md Hg H. unfold detect_corners. rewrite Hg. simpl.
    destruct (goodFeaturesToTrack cv2 gray mc q md) as [cs|];
      simpl in H; [ subst cs | ]; reflexivity.
Qed.

Lemma detection_without_features_witness :
  detect_lines blank_cv flat 1 (PI / 180) 100 = flat /\
  detect_corners blank_cv flat 25 (10 # 100) 10 = Ok flat.
Proof.
  destruct (detection_without_features blank_cv flat) as [L C]. split.
  - apply L. reflexivity.
  - apply (C [[9; 9]]); reflexivity.
Defined.

(** ** Channel preconditions *)

Lemma same_sizes_refl (s : list nat) : same_sizes s s = true.
Proof.
  induction s as [|n s IH]; simpl; [ reflexivity | ].
  rewrite Nat.eqb_refl. exact IH.
Qed.

Lemma sizes_map {A B : Type} (f : A -> B) (rows : list (list A)) :
  sizes (map (map f) rows) = sizes rows.
Proof.
  unfold sizes. rewrite map_map. apply map_ext. intros r. apply length_map.
Qed.

Lemma merge_same_sizes (x y z : plane) :
  sizes y = sizes x -> sizes z = sizes x ->
  merge x y z = Ok (Color (zip3_rows x y z)).
Proof.
  intros Hy Hz. unfold merge. rewrite Hy, Hz, same_sizes_refl. reflexivity.
Qed.

(** The three planes of a colour image, each sent through [f], [g], [h],
    merge into one image. *)
Lemma merge_columns (f g h : plane -> plane) (rows : list (list bgr)) :
  (forall p, sizes (f p) = sizes p) ->
  (forall p, sizes (g p) = sizes p) ->
  (forall p, sizes (h p) = sizes p) ->
  exists out,
    merge (f (column (fun p => fst (fst p)) rows))
          (g (column (fun p => snd (fst p)) rows))
          (h (column (fun p => snd p) rows)) = Ok (Color out).
Proof.
  intros Hf Hg Hh. eexists. apply merge_same_sizes.
  - rewrite Hf, Hg. unfold column. rewrite !sizes_map. reflexivity.
  - rewrite Hf, Hh. unfold column. rewrite !sizes_map. reflexivity.
Qed.

Lemma sizes_equalizeHist (p : plane) : sizes (equalizeHist p) = sizes p.
Proof. unfold equalizeHist, map_plane. apply sizes_map. Qed.

(** C10: on a single-channel image the RGB equalization fails at the
    unpacking of the split, and the HSV equalization and the corner
    detection fail at the colour conversion; on a three-channel image each
    of the three returns an image. *)
Theorem three_channel_precondition :
  forall (cv2 : cv_lib) (max_corners : Z) (quality_level : Q) (min_distance : Z),
    (forall rows : plane,
        histogram_equalization_rgb (Gray rows) = Raise ValueError /\
        histogram_equalization_hsv (Gray rows) = Raise cv2_error /\
        detect_corners cv2 (Gray rows) max_corners quality_level min_distance
          = Raise cv2_error) /\
    (forall rows : list (list bgr),
        (exists out, histogram_equalization_rgb (Color rows) = Ok (Color out)) /\
        (exists out, histogram_equalization_hsv (Color rows) = Ok (Color out)) /\
        (exists out,
            detect_corners cv2 (Color rows) max_corners quality_level min_distance
              = Ok out)).
Proof.
  intros cv2 mc q md. split.
  - intros rows. repeat split; reflexivity.
  - intros rows. split; [ | split ].
    + unfold histogram_equalization_rgb. simpl.
      apply (merge_columns equalizeHist equalizeHist equalizeHist);
        apply sizes_equalizeHist.
    + unfold histogram_equalization_hsv. simpl.
      destruct (merge_columns (fun p => p) (fun p => p) equalizeHist
                  (map (map bgr2hsv_px) rows)) as [out E];
        try reflexivity; try apply sizes_equalizeHist.
      rewrite E. simpl. eexists. reflexivity.
    + unfold detect_corners. simpl.
      destruct (goodFeaturesToTrack cv2 (map (map bgr2gray_px) rows) mc q md);
        eexists; reflexivity.
Qed.

(** ** HSV equalization *)

Lemma zip3_columns (f : Z -> Z) (row : list bgr) :
  zip3 (map (fun p => fst (fst p)) row) (map (fun p => snd (fst p)) row)
       (map f (map (fun p => snd p) row)) =
  map (fun p => (fst (fst p), snd (fst p), f (snd p))) row.
Proof.
  induction row as [|[[h s] v] row IH]; simpl; [ reflexivity | ].
  rewrite IH. reflexivity.
Qed.

Lemma zip3_rows_columns (f : Z -> Z) (rows : list (list bgr)) :
  zip3_rows (column (fun p => fst (fst p)) rows)
            (column (fun p => snd (fst p)) rows)
            (map_plane f (column (fun p => snd p) rows)) =
  map (map (fun p => (fst (fst p), snd (fst p), f (snd p)))) rows.
Proof.
  unfold column, map_plane.
  induction rows as [|row rows IH]; simpl; [ reflexivity | ].
  rewrite zip3_columns, IH. reflexivity.
Qed.

Lemma histogram_equalization_hsv_pixels (rows : list (list bgr)) :
  histogram_equalization_hsv (Color rows) =
  Ok (Color (map (map (fun p =>
                         hsv2bgr_px (hue p, saturation p,
                                     value_lut rows (brightness p))))
                 rows)).
Proof.
  unfold histogram_equalization_hsv. simpl.
  rewrite merge_same_sizes.
  - simpl. unfold equalizeHist. rewrite zip3_rows_columns.
    rewrite !map_map. do 2 f_equal. apply map_ext. intros row.
    rewrite !map_map. reflexivity.
  - unfold column. rewrite !sizes_map. reflexivity.
  - rewrite sizes_equalizeHist. unfold column. rewrite !sizes_map. reflexivity.
Qed.


(** ** Line detection *)

Local Open Scope R_scope.

Lemma cos_sin_unit (theta : R) :
  cos theta * cos theta + sin theta * sin theta = 1.
Proof.
  pose proof (sin2_cos2 theta) as H. unfold Rsqr in H. lra.
Qed.

Lemma foot_closest (rho theta : R) :
  closest_to_origin rho theta (cos theta * rho) (sin theta * rho).
Proof.
  pose proof (cos_sin_unit theta) as U. split.
  - unfold on_polar_line.
    replace (cos theta * rho * cos theta + sin theta * rho * sin theta)
      with (rho * (cos theta * cos theta + sin theta * sin theta)) by ring.
    rewrite U. ring.
  - intros x y L. unfold on_polar_line in L. subst rho.
    set (c := cos theta) in *. set (s := sin theta) in *.
    assert (E : x * x + y * y -
                (c * (x * c + y * s) * (c * (x * c + y * s)) +
                 s * (x * c + y * s) * (s * (x * c + y * s))) =
                (x * x + y * y) * (1 - (c * c + s * s)) +
                (1 - (c * c + s * s)) * ((x * c + y * s) * (x * c + y * s)) +
                (x * s - y * c) * (x * s - y * c))
      by ring.
    rewrite U in E.
    pose proof (Rle_0_sqr (x * s - y * c)) as P. unfold Rsqr in P. lra.
Qed.

Lemma along_line (theta : R) : unit_direction theta (- sin theta) (cos theta).
Proof.
  pose proof (cos_sin_unit theta) as U. split.
  - lra.
  - intros rho x y t L. unfold on_polar_line in *. rewrite <- L. ring.
Qed.

Lemma Int_part_nonneg (x : R) : 0 <= x -> (0 <= Int_part x)%Z.
Proof.
  intros H. destruct (base_Int_part x) as [_ B].
  assert (L : -1 < IZR (Int_part x)) by lra.
  apply lt_IZR in L. lia.
Qed.

(** [int] of a float moves it by less than one, towards zero. *)
Lemma py_int_truncates (x : R) :
  Rabs (IZR (py_int x) - x) < 1 /\ Rabs (IZR (py_int x)) <= Rabs x.
Proof.
  unfold py_int. destruct (Rle_dec 0 x) as [P|N].
  - destruct (base_Int_part x) as [A B].
    pose proof (IZR_le _ _ (Int_part_nonneg x P)) as C.
    split.
    + rewrite Rabs_left1 by lra. lra.
    + rewrite (Rabs_right (IZR (Int_part x))) by lra.
      rewrite (Rabs_right x) by lra. exact A.
  - assert (P : 0 <= - x) by lra.
    destruct (base_Int_part (- x)) as [A B].
    pose proof (IZR_le _ _ (Int_part_nonneg (- x) P)) as C.
    rewrite opp_IZR. split.
    + rewrite Rabs_right by lra. lra.
    + rewrite (Rabs_left1 (- IZR (Int_part (- x)))) by lra.
      rewrite (Rabs_left1 x) by lra. lra.
Qed.

Lemma line_endpoints_extended (l : R * R) :
  extended_segment l (line_endpoints (fst l) (snd l)).
Proof.
  destruct l as [rho theta]. simpl.
  exists (cos theta * rho), (sin theta * rho), (- sin theta), (cos theta).
  split; [ apply foot_closest | split; [ apply along_line | ] ].
  unfold line_endpoints, within_a_pixel. simpl.
  repeat split; apply py_int_truncates.
Qed.

Lemma py_int_IZR (z : Z) : py_int (IZR z) = z.
Proof.
  unfold py_int. destruct (Rle_dec 0 (IZR z)) as [_|_].
  - symmetry. apply Int_part_spec. lra.
  - rewrite <- opp_IZR. rewrite <- (Int_part_spec (IZR (- z)) (- z)); [ lia | lra ].
Qed.

(** A pair (r, 0) is the vertical line x = r: the segment runs from
    (r, 1000) to (r, -1000). *)
Lemma line_endpoints_upright (r : Z) :
  line_endpoints (IZR r) 0 = ((r, 1000)%Z, (r, -1000)%Z).
Proof.
  unfold line_endpoints. rewrite cos_0, sin_0.
  replace (1 * IZR r + 1000 * - 0) with (IZR r) by lra.
  replace (0 * IZR r + 1000 * 1) with (IZR 1000) by lra.
  replace (1 * IZR r - 1000 * - 0) with (IZR r) by lra.
  replace (0 * IZR r - 1000 * 1) with (IZR (-1000)) by lra.
  rewrite !py_int_IZR. reflexivity.
Qed.

Local Close Scope R_scope.

Lemma fold_draw_line (cv2 : cv_lib) (ls : list (R * R)) (img : image) :
  fold_left (draw_line cv2) ls img =
  fold_left (draw_segment cv2)
            (map (fun l => line_endpoints (fst l) (snd l)) ls) img.
Proof.
  revert img. induction ls as [|[rho theta] ls IH]; intros img; simpl;
    [ reflexivity | ].
  rewrite <- IH. f_equal.
Qed.

Lemma Forall2_extended_segment (ls : list (R * R)) :
  Forall2 extended_segment ls (map (fun l => line_endpoints (fst l) (snd l)) ls).
Proof.
  induction ls as [|l ls IH]; simpl; constructor;
    [ apply line_endpoints_extended | exact IH ].
Qed.

(** C6: [detect_lines] hands the edge map of [Canny] with the thresholds 50
    and 150 to [HoughLines] and draws, on the input image, one segment for
    each (rho, theta) found; the segment reaches 1000 units along the line
    to both sides of its point closest to the origin, each end point
    within a pixel of the exact one; [process_image] calls it with
    theta = pi / bucket-count. *)
Theorem line_detection_pipeline :
  forall (cv2 : cv_lib) (img : image),
    (forall (rho theta : R) (threshold : Z),
        exists segs,
          Forall2 extended_segment
                  (found (HoughLines cv2 (Canny cv2 img 50 150) rho theta
                            threshold)) segs /\
          detect_lines cv2 img rho theta threshold =
            fold_left (draw_segment cv2) segs img) /\
    (forall (c : controls) (r n t : Z),
        method_combo c = LineDetection ->
        rho_spin c = Some r -> theta_spin c = Some n ->
        threshold_spin c = Some t ->
        dispatch cv2 c img = Ok (detect_lines cv2 img (IZR r) (PI / IZR n)%R t)).
Proof.
  intros cv2 img. split.
  - intros rho theta threshold. unfold detect_lines.
    destruct (HoughLines cv2 (Canny cv2 img 50 150) rho theta threshold)
      as [ls|]; simpl.
    + exists (map (fun l => line_endpoints (fst l) (snd l)) ls). split.
      * apply Forall2_extended_segment.
      * apply fold_draw_line.
    + exists []. split; [ constructor | reflexivity ].
  - intros c r n t Hm Hr Hn Ht. unfold dispatch.
    rewrite Hm, Hr, Hn, Ht. reflexivity.
Qed.

Lemma line_detection_pipeline_witness :
  (exists segs,
      Forall2 extended_segment [(IZR 1, IZR 0)] segs /\
      detect_lines ruled_cv flat (IZR 1) (PI / IZR 180)%R 100 =
        fold_left (draw_segment ruled_cv) segs flat) /\
  dispatch ruled_cv (ui (run ruled_cv [Select LineDetection] init)) flat =
    Ok (detect_lines ruled_cv flat (IZR 1) (PI / IZR 180)%R 100).
Proof.
  destruct (line_detection_pipeline ruled_cv flat) as [A B]. split.
  - exact (A (IZR 1) (PI / IZR 180)%R 100).
  - apply B; reflexivity.
Defined.

(** With the line x = 1 detected, the second column of a two-pixel row is
    drawn in the highlight colour. *)
Example detect_lines_draws :
  detect_lines ruled_cv flat (IZR 1) (PI / IZR 180)%R 100 =
  Color [[(9, 9, 9); (0, 0, 255)]].
Proof.
  unfold detect_lines. simpl HoughLines. cbn [fold_left draw_line].
  rewrite line_endpoints_upright. reflexivity.
Qed.

(** ** The two slots along a session *)

Lemma run_app (cv2 : cv_lib) (es es' : list event) (s : App) :
  run cv2 (es ++ es') s = run cv2 es' (run cv2 es s).
Proof. unfold run. apply fold_left_app. Qed.

Lemma run_snoc (cv2 : cv_lib) (es : list event) (e : event) (s : App) :
  run cv2 (es ++ [e]) s = fst (handle cv2 e (run cv2 es s)).
Proof. rewrite run_app. reflexivity. Qed.

Lemma no_load_succeeds_snoc (cv2 : cv_lib) (es : list event) (e : event) :
  forall s,
    no_load_succeeds cv2 s es ->
    (forall g, e = Load g -> ~ successful_load cv2 (run cv2 es s) g) ->
    no_load_succeeds cv2 s (es ++ [e]).
Proof.
  induction es as [|e0 es IH]; intros s Hn He; simpl in *.
  - split; [ | exact I ]. destruct e; try exact I. apply He. reflexivity.
  - destruct Hn as [H0 Hn]. split; [ exact H0 | ].
    apply IH; assumption.
Qed.

Lemma load_image_cancelled (cv2 : cv_lib) (s : App) :
  load_image cv2 EmptyString s = (s, Ok tt).
Proof. reflexivity. Qed.

Lemma load_image_decoded (cv2 : cv_lib) (s : App) (f : string)
      (rows : list (list bgr)) :
  f <> EmptyString -> imread cv2 f = Some rows ->
  let s' := fst (load_image cv2 f s) in
  snd (load_image cv2 f s) = Ok tt /\
  original_image s' = Some (Color rows) /\
  processed_image s' = None /\
  processed_label s' = None /\
  processed_histogram s' = [] /\
  ui s' = ui s.
Proof.
  intros Hf Hr. unfold load_image.
  destruct (String.eqb_spec f EmptyString) as [E|_]; [ contradiction | ].
  unfold display_image, update_histogram. run_handler. rewrite Hr. simpl.
  repeat split; reflexivity.
Qed.

Lemma successful_load_decodes (cv2 : cv_lib) (s : App) (f : string) :
  successful_load cv2 s f <-> f <> EmptyString /\ imread cv2 f <> None.
Proof.
  unfold successful_load. split; intros [Hf H]; split; try exact Hf.
  - intros Hr. rewrite (load_image_undecodable cv2 s f Hf Hr) in H.
    discriminate H.
  - destruct (imread cv2 f) as [rows|] eqn:Hr; [ | contradiction ].
    apply (load_image_decoded cv2 s f rows Hf Hr).
Qed.

Lemma successful_process_dispatch (cv2 : cv_lib) (s : App) :
  successful_process cv2 s <->
  exists img res, original_image s = Some img /\ dispatch cv2 (ui s) img = Ok res.
Proof.
  unfold successful_process. split.
  - intros [Ho H]. destruct (original_image s) as [img|] eqn:E;
      [ | contradiction ].
    destruct (dispatch cv2 (ui s) img) as [res|e] eqn:Hd.
    + exists img, res. split; [ reflexivity | exact Hd ].
    + rewrite (process_image_raises cv2 s img e E Hd) in H. discriminate H.
  - intros (img & res & Ho & Hd). split; [ congruence | ].
    rewrite (process_image_result cv2 s img res Ho Hd). reflexivity.
Qed.

(** What one event does to the two slots. *)
Lemma handle_original (cv2 : cv_lib) (e : event) (s : App) :
  original_image (fst (handle cv2 e s)) <> None ->
  (exists f, e = Load f /\ successful_load cv2 s f) \/
  original_image s <> None.
Proof.
  destruct e as [f|m|w v| |]; simpl.
  - destruct (String.eqb_spec f EmptyString) as [E|Hf].
    + subst f. rewrite load_image_cancelled. simpl. right. assumption.
    + destruct (imread cv2 f) as [rows|] eqn:Hr.
      * intros _. left. exists f. split; [ reflexivity | ].
        apply successful_load_decodes. split; [ exact Hf | congruence ].
      * rewrite (load_image_undecodable cv2 s f Hf Hr). simpl. congruence.
  - unfold select_method. run_handler.
    destruct (method_eqb m (method_combo (ui s))); simpl; right; assumption.
  - unfold adjust. run_handler.
    destruct (existsb (widget_eqb w) (panel (method_combo (ui s)))); simpl;
      right; assumption.
  - destruct (original_image s) as [img|] eqn:Ho.
    + intros _. right. discriminate.
    + rewrite (process_image_guard cv2 s Ho). simpl. congruence.
  - unfold resizeEvent, display_image. run_handler.
    destruct (original_image s) as [i|] eqn:Ho; simpl.
    + intros _. right. discriminate.
    + destruct (processed_image s); simpl; rewrite Ho; congruence.
Qed.

Lemma handle_processed (cv2 : cv_lib) (e : event) (s : App) :
  processed_image (fst (handle cv2 e s)) <> None ->
  (e = Process /\ successful_process cv2 s) \/
  (processed_image s <> None /\
   forall g, e = Load g -> ~ successful_load cv2 s g).
Proof.
  destruct e as [f|m|w v| |]; simpl.
  - destruct (String.eqb_spec f EmptyString) as [E|Hf].
    + subst f. rewrite load_image_cancelled. simpl. intros H. right.
      split; [ exact H | ]. intros g Hg [Hne _]. injection Hg as <-.
      apply Hne. reflexivity.
    + destruct (imread cv2 f) as [rows|] eqn:Hr.
      * destruct (load_image_decoded cv2 s f rows Hf Hr) as (_ & _ & Hp & _).
        rewrite Hp. congruence.
      * rewrite (load_image_undecodable cv2 s f Hf Hr). simpl. intros H.
        right. split; [ exact H | ]. intros g Hg Hs. injection Hg as <-.
        apply successful_load_decodes in Hs. destruct Hs as [_ Hs].
        apply Hs. exact Hr.
  - unfold select_method. run_handler.
    destruct (method_eqb m (method_combo (ui s))); simpl; intros H; right;
      (split; [ exact H | discriminate ]).
  - unfold adjust. run_handler.
    destruct (existsb (widget_eqb w) (panel (method_combo (ui s)))); simpl;
      intros H; right; (split; [ exact H | discriminate ]).
  - destruct (original_image s) as [img|] eqn:Ho.
    + destruct (dispatch cv2 (ui s) img) as [res|e] eqn:Hd.
      * intros _. left. split; [ reflexivity | ].
        apply successful_process_dispatch. exists img, res. split; assumption.
      * rewrite (process_image_raises cv2 s img e Ho Hd). simpl. intros H.
        right. split; [ exact H | discriminate ].
    + rewrite (process_image_guard cv2 s Ho). simpl. intros H.
      right. split; [ exact H | discriminate ].
  - unfold resizeEvent, display_image. run_handler.
    destruct (original_image s) as [i0|] eqn:Ho; simpl;
      destruct (processed_image s) as [j0|] eqn:Hp; simpl; intros H; right;
      (split; [ congruence | discriminate ]).
Qed.

Lemma original_after_load (cv2 : cv_lib) (es : list event) :
  original_image (run cv2 es init) <> None ->
  exists pre f post,
    es = pre ++ Load f :: post /\ successful_load cv2 (run cv2 pre init) f.
Proof.
  induction es as [|e es IH] using rev_ind; intros H.
  - exfalso. apply H. reflexivity.
  - rewrite run_snoc in H.
    destruct (handle_original cv2 e _ H) as [(f & -> & Hs)|Ho].
    + exists es, f, []. split; [ reflexivity | exact Hs ].
    + destruct (IH Ho) as (pre & f & post & -> & Hs).
      exists pre, f, (post ++ [e]). split; [ | exact Hs ].
      rewrite <- app_assoc. reflexivity.
Qed.

(** C8: at every point of a session that starts with an empty window, a
    non-empty processed slot was stored by a successful run of the selected
    method, that run came after a successful load, and no load succeeded
    since; and a successful load, in whatever state, leaves the processed
    slot, its preview and its histogram empty. *)
Theorem session_invariant :
  forall (cv2 : cv_lib) (es : list event),
    (processed_image (run cv2 es init) <> None ->
     exists pre f mid post,
       es = pre ++ Load f :: mid ++ Process :: post /\
       successful_load cv2 (run cv2 pre init) f /\
       successful_process cv2 (run cv2 (pre ++ Load f :: mid) init) /\
       no_load_succeeds cv2 (run cv2 (pre ++ Load f :: mid ++ [Process]) init)
                        post) /\
    (forall (s : App) (f : string),
        successful_load cv2 s f ->
        original_image (fst (load_image cv2 f s)) <> None /\
        processed_image (fst (load_image cv2 f s)) = None /\
        processed_label (fst (load_image cv2 f s)) = None /\
        processed_histogram (fst (load_image cv2 f s)) = []).
Proof.
  intros cv2 es. split.
  - induction es as [|e es IH] using rev_ind; intros H.
    + exfalso. apply H. reflexivity.
    + rewrite run_snoc in H.
      destruct (handle_processed cv2 e _ H) as [[-> Hs]|[Hp Hl]].
      * assert (Ho : original_image (run cv2 es init) <> None)
          by (destruct Hs; assumption).
        destruct (original_after_load cv2 es Ho) as (pre & f & mid & -> & Hf).
        exists pre, f, mid, []. repeat split.
        -- rewrite <- app_assoc. reflexivity.
        -- apply Hf.
        -- apply Hf.
        -- apply Hs.
        -- apply Hs.
      * destruct (IH Hp) as (pre & f & mid & post & -> & Hf & Hs & Hn).
        exists pre, f, mid, (post ++ [e]). repeat split;
          try apply Hf; try apply Hs.
        -- repeat (rewrite <- app_assoc; simpl). reflexivity.
        -- apply no_load_succeeds_snoc; [ exact Hn | ].
           intros g Hg. rewrite <- run_app.
           replace ((pre ++ Load f :: mid ++ [Process]) ++ post)
             with (pre ++ Load f :: mid ++ Process :: post)
             by (repeat (rewrite <- app_assoc; simpl); reflexivity).
           apply Hl. exact Hg.
  - intros s f Hs. apply successful_load_decodes in Hs.
    destruct Hs as [Hf Hr].
    destruct (imread cv2 f) as [rows|] eqn:E; [ | contradiction ].
    destruct (load_image_decoded cv2 s f rows Hf E) as (_ & Ho & Hp & Hl & Hh & _).
    repeat split; try assumption. rewrite Ho. discriminate.
Qed.

Lemma session_invariant_witness :
  exists pre f mid post,
    [Load "flat.png"; Adjust w_beta_slider 20; Process; Load "missing.png"] =
      pre ++ Load f :: mid ++ Process :: post /\
    successful_load blank_cv (run blank_cv pre init) f /\
    successful_process blank_cv (run blank_cv (pre ++ Load f :: mid) init) /\
    no_load_succeeds blank_cv
      (run blank_cv (pre ++ Load f :: mid ++ [Process]) init) post.
Proof.
  apply (proj1 (session_invariant blank_cv
                  [Load "flat.png"; Adjust w_beta_slider 20; Process;
                   Load "missing.png"])).
  discriminate.
Defined.

(** * Further properties *)

(** ** Linear contrast, further *)

Lemma map_samples_valid (f : Z -> Z) (img : image) :
  (forall v, is_uchar (f v)) -> valid_image (map_samples f img).
Proof.
  intros Hf. destruct img as [rows|rows]; simpl; unfold map_plane.
  - apply Forall_map, Forall_forall. intros row _.
    apply Forall_map, Forall_forall. intros v _. apply Hf.
  - apply Forall_map, Forall_forall. intros row _.
    apply Forall_map, Forall_forall. intros [[b g] r] _. simpl.
    repeat split; apply Hf.
Qed.

Lemma channel_of_valid (p : bgr) (c : nat) (v : Z) :
  bgr_uchar p -> channel_of p c = Some v -> is_uchar v.
Proof.
  destruct p as [[b g] r]. intros (Hb & Hg & Hr).
  destruct c as [|[|[|c]]]; simpl; intros E; inversion E; subst; assumption.
Qed.

Lemma pixel_valid (img : image) (y x c : nat) (v : Z) :
  valid_image img -> pixel img y x c = Some v -> is_uchar v.
Proof.
  intros Hv Hp. destruct img as [rows|rows]; simpl in *.
  - destruct (nth_error rows y) as [row|] eqn:Er; [ | discriminate ].
    destruct c; [ | discriminate ].
    apply nth_error_In in Er, Hp.
    rewrite Forall_forall in Hv. specialize (Hv row Er).
    rewrite Forall_forall in Hv. apply Hv. exact Hp.
  - destruct (nth_error rows y) as [row|] eqn:Er; [ | discriminate ].
    destruct (nth_error row x) as [p|] eqn:Ep; [ | discriminate ].
    apply nth_error_In in Er, Ep.
    rewrite Forall_forall in Hv. specialize (Hv row Er).
    rewrite Forall_forall in Hv. apply (channel_of_valid p c); auto.
Qed.

(** X1: whatever the image and the parameters, every sample that
    [linear_contrast] returns fits the 8-bit depth. *)
Theorem linear_contrast_valid :
  forall (img : image) (alpha beta : Q),
    valid_image (linear_contrast img alpha beta).
Proof.
  intros img alpha beta. unfold linear_contrast, convertScaleAbs.
  apply map_samples_valid. intros v. apply saturate_is_uchar.
Qed.

Lemma convertScaleAbs_px_le (alpha beta : Q) (u v : Z) :
  (0 <= alpha)%Q -> (0 <= beta)%Q -> 0 <= u <= v ->
  convertScaleAbs_px alpha beta u <= convertScaleAbs_px alpha beta v.
Proof.
  intros Ha Hb [Hu Huv]. unfold convertScaleAbs_px.
  apply saturate_le, cvRound_le.
  assert (Qu : (0 <= inject_Z u)%Q)
    by (change 0%Q with (inject_Z 0); rewrite <- Zle_Qle; exact Hu).
  assert (Quv : (inject_Z u <= inject_Z v)%Q) by (rewrite <- Zle_Qle; exact Huv).
  assert (Pu : (0 <= inject_Z u * alpha + beta)%Q) by nra.
  assert (Pv : (0 <= inject_Z v * alpha + beta)%Q) by nra.
  rewrite (Qabs_pos _ Pu), (Qabs_pos _ Pv). nra.
Qed.

(** X2: with a scale and an offset that are not negative, [linear_contrast]
    keeps the order of brightness: of two samples of a valid image, the one
    that was not brighter is not brighter afterwards. *)
Theorem linear_contrast_monotone :
  forall (img : image) (alpha beta : Q) (y x c y' x' c' : nat) (u v : Z),
    (0 <= alpha)%Q -> (0 <= beta)%Q -> valid_image img ->
    pixel img y x c = Some u -> pixel img y' x' c' = Some v -> u <= v ->
    exists u' v',
      pixel (linear_contrast img alpha beta) y x c = Some u' /\
      pixel (linear_contrast img alpha beta) y' x' c' = Some v' /\
      u' <= v'.
Proof.
  intros img alpha beta y x c y' x' c' u v Ha Hb Hv Pu Pv Huv.
  unfold linear_contrast, convertScaleAbs.
  rewrite !pixel_map_samples, Pu, Pv. simpl.
  eexists _, _. split; [ reflexivity | split; [ reflexivity | ] ].
  apply convertScaleAbs_px_le; try assumption.
  destruct (pixel_valid img y x c u Hv Pu) as [H0 _]. lia.
Qed.

Lemma linear_contrast_monotone_witness :
  exists u' v',
    pixel (linear_contrast (Color [[(10, 20, 30)]]) (3 # 2) 5) 0 0 0 = Some u' /\
    pixel (linear_contrast (Color [[(10, 20, 30)]]) (3 # 2) 5) 0 0 2 = Some v' /\
    u' <= v'.
Proof.
  apply (linear_contrast_monotone (Color [[(10, 20, 30)]]) (3 # 2) 5
           0 0 0 0 0 2 10 30); try reflexivity; try discriminate.
  simpl. repeat constructor; unfold is_uchar; lia.
Defined.

(** X3: with a scale of at least 1 and an offset that is not negative,
    [linear_contrast] darkens no sample of a valid image. *)
Theorem linear_contrast_brightens :
  forall (img : image) (alpha beta : Q) (y x c : nat) (v : Z),
    (1 <= alpha)%Q -> (0 <= beta)%Q -> valid_image img ->
    pixel img y x c = Some v ->
    exists v',
      pixel (linear_contrast img alpha beta) y x c = Some v' /\ v <= v' <= 255.
Proof.
  intros img alpha beta y x c v Ha Hb Hv Pv.
  destruct (pixel_valid img y x c v Hv Pv) as [H0 H255].
  unfold linear_contrast, convertScaleAbs.
  rewrite pixel_map_samples, Pv. simpl. eexists. split; [ reflexivity | ].
  assert (Qv : (0 <= inject_Z v)%Q)
    by (change 0%Q with (inject_Z 0); rewrite <- Zle_Qle; exact H0).
  assert (P : (inject_Z v <= inject_Z v * alpha + beta)%Q) by nra.
  assert (P0 : (0 <= inject_Z v * alpha + beta)%Q) by nra.
  unfold convertScaleAbs_px.
  pose proof (cvRound_le _ _ P) as R. rewrite cvRound_inject_Z in R.
  rewrite (cvRound_comp _ _ (Qabs_pos _ P0)).
  unfold saturate_cast_uchar. lia.
Qed.

Lemma linear_contrast_brightens_witness :
  exists v',
    pixel (linear_contrast (Color [[(10, 20, 250)]]) (3 # 2) 5) 0 0 2 = Some v' /\
    250 <= v' <= 255.
Proof.
  apply (linear_contrast_brightens (Color [[(10, 20, 250)]]) (3 # 2) 5 0 0 2 250);
    try reflexivity; try discriminate.
  simpl. repeat constructor; unfold is_uchar; lia.
Defined.

(** ** Histogram equalization, further *)

Lemma count_if_cons (f : Z -> bool) (v : Z) (l : list Z) :
  count_if f (v :: l) = (if f v then 1 else 0) + count_if f l.
Proof.
  unfold count_if. simpl filter.
  destruct (f v); [ simpl length; rewrite Nat2Z.inj_succ; lia | lia ].
Qed.

Lemma count_if_nonneg (f : Z -> bool) (l : list Z) : 0 <= count_if f l.
Proof. unfold count_if. lia. Qed.

Lemma count_if_le_length (f : Z -> bool) (l : list Z) :
  count_if f l <= Z.of_nat (length l).
Proof.
  unfold count_if. apply inj_le. apply filter_length_le.
Qed.

Lemma count_if_mono (f g : Z -> bool) (l : list Z) :
  (forall s, f s = true -> g s = true) -> count_if f l <= count_if g l.
Proof.
  intros H. induction l as [|v l IH]; [ reflexivity | ].
  rewrite !count_if_cons. specialize (H v).
  destruct (f v), (g v); try lia; specialize (H eq_refl); discriminate H.
Qed.

Lemma count_if_all (f : Z -> bool) (l : list Z) :
  (forall s, In s l -> f s = true) -> count_if f l = Z.of_nat (length l).
Proof.
  intros H. induction l as [|v l IH]; [ reflexivity | ].
  rewrite count_if_cons, (H v (or_introl eq_refl)), IH.
  - simpl length. lia.
  - intros s Hs. apply H. right. exact Hs.
Qed.

Lemma count_if_none (f : Z -> bool) (l : list Z) :
  (forall s, In s l -> f s = false) -> count_if f l = 0.
Proof.
  intros H. induction l as [|v l IH]; [ reflexivity | ].
  rewrite count_if_cons, (H v (or_introl eq_refl)), IH; [ reflexivity | ].
  intros s Hs. apply H. right. exact Hs.
Qed.

Lemma count_if_some_false (f : Z -> bool) (l : list Z) (w : Z) :
  In w l -> f w = false -> count_if f l < Z.of_nat (length l).
Proof.
  intros Hw Hf. induction l as [|v l IH]; [ contradiction | ].
  rewrite count_if_cons. simpl length. destruct Hw as [->|Hw].
  - rewrite Hf. pose proof (count_if_le_length f l). lia.
  - specialize (IH Hw). destruct (f v); lia.
Qed.

Lemma count_if_partition (f g : Z -> bool) (l : list Z) :
  (forall s, In s l -> f s = negb (g s)) ->
  count_if f l + count_if g l = Z.of_nat (length l).
Proof.
  intros H. induction l as [|v l IH]; [ reflexivity | ].
  rewrite !count_if_cons, (H v (or_introl eq_refl)). simpl length.
  rewrite Nat2Z.inj_succ.
  assert (IH' : count_if f l + count_if g l = Z.of_nat (length l)).
  { apply IH. intros s Hs. apply H. right. exact Hs. }
  destruct (g v); cbn [negb]; lia.
Qed.

Lemma fold_min_le (l : list Z) (a : Z) :
  fold_left Z.min l a <= a /\ forall s, In s l -> fold_left Z.min l a <= s.
Proof.
  revert a. induction l as [|v l IH]; intros a; simpl.
  - split; [ lia | contradiction ].
  - destruct (IH (Z.min a v)) as [H1 H2]. split; [ lia | ].
    intros s [->|Hs]; [ lia | apply H2; exact Hs ].
Qed.

Lemma fold_min_in (l : list Z) (a : Z) :
  fold_left Z.min l a = a \/ In (fold_left Z.min l a) l.
Proof.
  revert a. induction l as [|v l IH]; intros a; simpl.
  - left. reflexivity.
  - destruct (IH (Z.min a v)) as [E|H]; [ | right; right; exact H ].
    rewrite E. destruct (Z.min_spec a v) as [[_ ->]|[_ ->]];
      [ left | right; left ]; reflexivity.
Qed.

Lemma minimum_le (l : list Z) (s : Z) : In s l -> minimum l <= s.
Proof.
  destruct l as [|v l]; [ contradiction | ]. simpl.
  destruct (fold_min_le l v) as [H1 H2].
  intros [<-|Hs]; [ exact H1 | apply H2; exact Hs ].
Qed.

Lemma minimum_in (l : list Z) : l <> [] -> In (minimum l) l.
Proof.
  destruct l as [|v l]; [ congruence | ]. intros _. simpl.
  destruct (fold_min_in l v) as [E|H]; [ left; symmetry; exact E | right; exact H ].
Qed.

Lemma minimum_least (l : list Z) (v : Z) :
  In v l -> (forall w, In w l -> v <= w) -> minimum l = v.
Proof.
  intros Hv Hl. assert (N : l <> []) by (destruct l; [ contradiction | congruence ]).
  pose proof (minimum_le l v Hv). pose proof (Hl _ (minimum_in l N)). lia.
Qed.

(** The table of [equalizeHist] keeps samples inside the 8-bit depth. *)
Lemma equalize_lut_valid (l : list Z) (v : Z) :
  Forall is_uchar l -> l <> [] -> is_uchar (equalize_lut l v).
Proof.
  intros Hl Hn. unfold equalize_lut.
  destruct (count_if (Z.eqb (minimum l)) l =? Z.of_nat (length l)).
  - rewrite Forall_forall in Hl. apply Hl, minimum_in. exact Hn.
  - apply saturate_is_uchar.
Qed.

(** The table of [equalizeHist] never reverses two values. *)
Lemma equalize_lut_le (l : list Z) (u v : Z) :
  u <= v -> equalize_lut l u <= equalize_lut l v.
Proof.
  intros Huv. unfold equalize_lut.
  destruct (count_if (Z.eqb (minimum l)) l =? Z.of_nat (length l)) eqn:E;
    [ lia | ].
  apply Z.eqb_neq in E.
  pose proof (count_if_le_length (Z.eqb (minimum l)) l) as B.
  set (d := Z.of_nat (length l) - count_if (Z.eqb (minimum l)) l) in *.
  assert (Hd : (0 < inject_Z d)%Q).
  { change 0%Q with (inject_Z 0). rewrite <- Zlt_Qlt. unfold d. lia. }
  apply saturate_le, cvRound_le.
  unfold Qdiv. apply Qmult_le_compat_r.
  - apply Qmult_le_compat_r; [ | discriminate ].
    rewrite <- Zle_Qle. apply count_if_mono. intros s Hs.
    apply andb_true_iff in Hs. destruct Hs as [H1 H2].
    apply andb_true_iff. split; [ exact H1 | ].
    apply Z.leb_le in H2. apply Z.leb_le. lia.
  - apply Qlt_le_weak, Qinv_lt_0_compat. exact Hd.
Qed.

(** The darkest value of a plane that has more than one value goes to 0. *)
Lemma equalize_lut_darkest (l : list Z) (v w : Z) :
  In v l -> (forall s, In s l -> v <= s) -> In w l -> w <> v ->
  equalize_lut l v = 0.
Proof.
  intros Hv Hmin Hw Hne. unfold equalize_lut.
  rewrite (minimum_least l v Hv Hmin).
  assert (L : count_if (Z.eqb v) l < Z.of_nat (length l)).
  { apply (count_if_some_false _ l w Hw). apply Z.eqb_neq. congruence. }
  destruct (count_if (Z.eqb v) l =? Z.of_nat (length l)) eqn:E;
    [ apply Z.eqb_eq in E; lia | ].
  assert (Z0 : count_if (fun s => (v <? s) && (s <=? v)) l = 0).
  { apply count_if_none. intros s _.
    destruct (Z.ltb_spec v s), (Z.leb_spec s v); simpl; try reflexivity. lia. }
  rewrite Z0. reflexivity.
Qed.

(** The brightest value of a plane that has more than one value goes to
    255. *)
Lemma equalize_lut_brightest (l : list Z) (v w : Z) :
  In v l -> (forall s, In s l -> s <= v) -> In w l -> w <> v ->
  equalize_lut l v = 255.
Proof.
  intros Hv Hmax Hw Hne. unfold equalize_lut.
  assert (N : l <> []) by (destruct l; [ contradiction | congruence ]).
  set (i0 := minimum l).
  assert (Hi0 : In i0 l) by (apply minimum_in; exact N).
  assert (L : count_if (Z.eqb i0) l < Z.of_nat (length l)).
  { destruct (Z.eq_dec i0 v) as [E|E].
    - apply (count_if_some_false _ l w Hw). apply Z.eqb_neq. congruence.
    - apply (count_if_some_false _ l v Hv). apply Z.eqb_neq. exact E. }
  destruct (count_if (Z.eqb i0) l =? Z.of_nat (length l)) eqn:E;
    [ apply Z.eqb_eq in E; lia | ].
  assert (P : count_if (fun s => (i0 <? s) && (s <=? v)) l +
              count_if (Z.eqb i0) l = Z.of_nat (length l)).
  { apply count_if_partition. intros s Hs.
    pose proof (minimum_le l s Hs) as M. fold i0 in M.
    pose proof (Hmax s Hs) as M'.
    destruct (Z.eqb_spec i0 s) as [<-|Hd]; simpl.
    - rewrite Z.ltb_irrefl. reflexivity.
    - apply andb_true_iff. split; [ apply Z.ltb_lt | apply Z.leb_le ]; lia. }
  set (d := Z.of_nat (length l) - count_if (Z.eqb i0) l) in *.
  replace (count_if (fun s => (i0 <? s) && (s <=? v)) l) with d
    by (unfold d; lia).
  assert (Q : (inject_Z d * (255 # 1) / inject_Z d == inject_Z 255)%Q).
  { field. intros Z0. assert (D : (0 < inject_Z d)%Q).
    { change 0%Q with (inject_Z 0). rewrite <- Zlt_Qlt. unfold d. lia. }
    rewrite Z0 in D. discriminate D. }
  rewrite (cvRound_comp _ _ Q), cvRound_inject_Z. reflexivity.
Qed.

(** A plane with one value keeps it. *)
Lemma equalize_lut_constant (l : list Z) (v : Z) :
  In v l -> (forall s, In s l -> s = v) -> equalize_lut l v = v.
Proof.
  intros Hv Hall. unfold equalize_lut.
  assert (M : minimum l = v).
  { apply minimum_least; [ exact Hv | ]. intros w Hw. rewrite (Hall w Hw). lia. }
  rewrite M, count_if_all, Z.eqb_refl; [ reflexivity | ].
  intros s Hs. apply Z.eqb_eq. symmetry. apply Hall. exact Hs.
Qed.

(** ** RGB equalization *)

Lemma zip3_maps (f g h : bgr -> Z) (row : list bgr) :
  zip3 (map f row) (map g row) (map h row) = map (fun p => (f p, g p, h p)) row.
Proof.
  induction row as [|p row IH]; simpl; [ reflexivity | ].
  rewrite IH. reflexivity.
Qed.

Lemma zip3_rows_maps (f g h : bgr -> Z) (rows : list (list bgr)) :
  zip3_rows (column f rows) (column g rows) (column h rows) =
  map (map (fun p => (f p, g p, h p))) rows.
Proof.
  unfold column. induction rows as [|row rows IH]; simpl; [ reflexivity | ].
  rewrite zip3_maps, IH. reflexivity.
Qed.

Lemma map_plane_column (F : Z -> Z) (f : bgr -> Z) (rows : list (list bgr)) :
  map_plane F (column f rows) = column (fun p => F (f p)) rows.
Proof.
  unfold map_plane, column. rewrite map_map. apply map_ext. intros row.
  apply map_map.
Qed.

Lemma histogram_equalization_rgb_pixels (rows : list (list bgr)) :
  histogram_equalization_rgb (Color rows) =
  Ok (Color (map (map (equalize_bgr (Color rows))) rows)).
Proof.
  unfold histogram_equalization_rgb. simpl.
  rewrite merge_same_sizes.
  - unfold equalizeHist. rewrite !map_plane_column, zip3_rows_maps. reflexivity.
  - rewrite !sizes_equalizeHist. unfold column. rewrite !sizes_map. reflexivity.
  - rewrite !sizes_equalizeHist. unfold column. rewrite !sizes_map. reflexivity.
Qed.

Lemma in_column_samples (sel : bgr -> Z) (rows : list (list bgr))
      (row : list bgr) (p : bgr) :
  In row rows -> In p row -> In (sel p) (samples (column sel rows)).
Proof.
  intros Hr Hp. unfold samples, column. apply in_concat.
  exists (map sel row). split; apply in_map; assumption.
Qed.

Lemma column_samples_inv (sel : bgr -> Z) (rows : list (list bgr)) (v : Z) :
  In v (samples (column sel rows)) ->
  exists row p, In row rows /\ In p row /\ v = sel p.
Proof.
  unfold samples, column. intros H. apply in_concat in H.
  destruct H as (l & Hl & Hv). apply in_map_iff in Hl.
  destruct Hl as (row & <- & Hrow). apply in_map_iff in Hv.
  destruct Hv as (p & <- & Hp). exists row, p. auto.
Qed.

Lemma pixel_in_channel (rows : list (list bgr)) (y x c : nat) (v : Z) :
  pixel (Color rows) y x c = Some v -> In v (channel_samples (Color rows) c).
Proof.
  simpl. destruct (nth_error rows y) as [row|] eqn:Er; [ | discriminate ].
  destruct (nth_error row x) as [[[b g] r]|] eqn:Ep; [ | discriminate ].
  apply nth_error_In in Er, Ep.
  destruct c as [|[|[|c]]]; simpl; intros E; inversion E; subst.
  - apply (in_column_samples (fun p => fst (fst p)) rows row (v, g, r)); assumption.
  - apply (in_column_samples (fun p => snd (fst p)) rows row (b, v, r)); assumption.
  - apply (in_column_samples (fun p => snd p) rows row (b, g, v)); assumption.
Qed.

Lemma pixel_equalize_bgr (rows : list (list bgr)) (y x c : nat) :
  pixel (Color (map (map (equalize_bgr (Color rows))) rows)) y x c =
  option_map (channel_lut (Color rows) c) (pixel (Color rows) y x c).
Proof.
  simpl. rewrite nth_error_map.
  destruct (nth_error rows y) as [row|]; [ simpl | reflexivity ].
  rewrite nth_error_map.
  destruct (nth_error row x) as [[[b g] r]|]; [ simpl | reflexivity ].
  destruct c as [|[|[|c]]]; reflexivity.
Qed.

(** X4: RGB equalization of a three-channel image returns an image of the
    same shape and treats each channel on its own: the samples of a channel
    go through one table, and two images that agree on a channel get the
    same table for it, whatever their other channels hold. *)
Theorem rgb_equalization_per_channel :
  forall (rows rows' : list (list bgr)) (c : nat),
    channel_plane (Color rows) c = channel_plane (Color rows') c ->
    exists (out out' : image) (table : Z -> Z),
      histogram_equalization_rgb (Color rows) = Ok out /\
      histogram_equalization_rgb (Color rows') = Ok out' /\
      shape out = shape (Color rows) /\
      (forall y x,
          pixel out y x c = option_map table (pixel (Color rows) y x c)) /\
      (forall y x,
          pixel out' y x c = option_map table (pixel (Color rows') y x c)).
Proof.
  intros rows rows' c E.
  exists (Color (map (map (equalize_bgr (Color rows))) rows)),
    (Color (map (map (equalize_bgr (Color rows'))) rows')),
    (channel_lut (Color rows) c).
  split; [ apply histogram_equalization_rgb_pixels | ].
  split; [ apply histogram_equalization_rgb_pixels | ].
  split; [ simpl; rewrite length_map, width_map; reflexivity | ].
  split; intros y x.
  - apply pixel_equalize_bgr.
  - rewrite pixel_equalize_bgr. unfold channel_lut, channel_samples.
    rewrite E. reflexivity.
Qed.

Lemma rgb_equalization_per_channel_witness :
  exists (out out' : image) (table : Z -> Z),
    histogram_equalization_rgb (Color [[(10, 20, 30); (40, 20, 90)]]) = Ok out /\
    histogram_equalization_rgb (Color [[(10, 99, 0); (40, 0, 7)]]) = Ok out' /\
    shape out = shape (Color [[(10, 20, 30); (40, 20, 90)]]) /\
    (forall y x,
        pixel out y x 0 =
        option_map table (pixel (Color [[(10, 20, 30); (40, 20, 90)]]) y x 0)) /\
    (forall y x,
        pixel out' y x 0 =
        option_map table (pixel (Color [[(10, 99, 0); (40, 0, 7)]]) y x 0)).
Proof.
  apply rgb_equalization_per_channel. reflexivity.
Defined.

Lemma column_samples_valid (sel : bgr -> Z) (rows : list (list bgr)) :
  (forall p, bgr_uchar p -> is_uchar (sel p)) ->
  Forall (Forall bgr_uchar) rows ->
  Forall is_uchar (samples (column sel rows)).
Proof.
  intros Hsel Hv. apply Forall_forall. intros v Hin.
  destruct (column_samples_inv sel rows v Hin) as (row & p & Hr & Hp & ->).
  apply Hsel. rewrite Forall_forall in Hv. specialize (Hv row Hr).
  rewrite Forall_forall in Hv. apply Hv. exact Hp.
Qed.

Lemma in_not_nil {A : Type} (a : A) (l : list A) : In a l -> l <> [].
Proof. destruct l; [ contradiction | discriminate ]. Qed.

(** X5: RGB equalization of a valid image is a valid image: every sample
    of the result fits the 8-bit depth. *)
Theorem rgb_equalization_valid :
  forall (rows : list (list bgr)) (out : image),
    valid_image (Color rows) ->
    histogram_equalization_rgb (Color rows) = Ok out ->
    valid_image out.
Proof.
  intros rows out Hv Hout. rewrite histogram_equalization_rgb_pixels in Hout.
  injection Hout as <-. simpl in *.
  apply Forall_map, Forall_forall. intros row Hr.
  apply Forall_map, Forall_forall. intros [[b g] r] Hp.
  unfold equalize_bgr, channel_lut, channel_samples, channel_plane. simpl.
  assert (K : forall sel : bgr -> Z,
             (forall p, bgr_uchar p -> is_uchar (sel p)) ->
             is_uchar (equalize_lut (samples (column sel rows)) (sel (b, g, r)))).
  { intros sel Hsel. apply equalize_lut_valid.
    - apply column_samples_valid; assumption.
    - apply (in_not_nil (sel (b, g, r))).
      apply (in_column_samples sel rows row (b, g, r)); assumption. }
  split; [ | split ].
  - apply (K (fun p => fst (fst p))). intros [[? ?] ?] (? & ? & ?); assumption.
  - apply (K (fun p => snd (fst p))). intros [[? ?] ?] (? & ? & ?); assumption.
  - apply (K (fun p => snd p)). intros [[? ?] ?] (? & ? & ?); assumption.
Qed.

Lemma rgb_equalization_valid_witness :
  valid_image (Color [[(0, 20, 0); (255, 20, 255)]]).
Proof.
  apply (rgb_equalization_valid [[(10, 20, 30); (40, 20, 90)]]).
  - simpl. repeat constructor; unfold is_uchar; lia.
  - reflexivity.
Defined.

(** X6: RGB equalization keeps the order of brightness inside a channel:
    of two samples of one channel, the one that was not brighter is not
    brighter afterwards. *)
Theorem rgb_equalization_monotone :
  forall (rows : list (list bgr)) (out : image) (c y x y' x' : nat) (u v : Z),
    histogram_equalization_rgb (Color rows) = Ok out ->
    pixel (Color rows) y x c = Some u ->
    pixel (Color rows) y' x' c = Some v ->
    u <= v ->
    exists u' v',
      pixel out y x c = Some u' /\ pixel out y' x' c = Some v' /\ u' <= v'.
Proof.
  intros rows out c y x y' x' u v Hout Pu Pv Huv.
  rewrite histogram_equalization_rgb_pixels in Hout. injection Hout as <-.
  rewrite !pixel_equalize_bgr, Pu, Pv. simpl.
  eexists _, _. split; [ reflexivity | split; [ reflexivity | ] ].
  apply equalize_lut_le. exact Huv.
Qed.

Lemma rgb_equalization_monotone_witness :
  exists u' v',
    pixel (Color [[(0, 20, 30); (128, 20, 30); (255, 20, 30)]]) 0 0 0 = Some u' /\
    pixel (Color [[(0, 20, 30); (128, 20, 30); (255, 20, 30)]]) 0 1 0 = Some v' /\
    u' <= v'.
Proof.
  apply (rgb_equalization_monotone
           [[(10, 20, 30); (40, 20, 30); (90, 20, 30)]] _ 0 0 0 0 1 10 40);
    try reflexivity.
  lia.
Defined.

(** X7: in a channel that holds more than one value, RGB equalization
    sends the darkest value to 0 and the brightest to 255. *)
Theorem rgb_equalization_stretches :
  forall (rows : list (list bgr)) (out : image) (c : nat) (lo hi : Z),
    histogram_equalization_rgb (Color rows) = Ok out ->
    In lo (channel_samples (Color rows) c) ->
    In hi (channel_samples (Color rows) c) ->
    (forall s, In s (channel_samples (Color rows) c) -> lo <= s <= hi) ->
    lo <> hi ->
    forall y x,
      (pixel (Color rows) y x c = Some lo -> pixel out y x c = Some 0) /\
      (pixel (Color rows) y x c = Some hi -> pixel out y x c = Some 255).
Proof.
  intros rows out c lo hi Hout Hlo Hhi Hb Hne y x.
  rewrite histogram_equalization_rgb_pixels in Hout. injection Hout as <-.
  rewrite pixel_equalize_bgr. unfold channel_lut. split; intros ->; simpl; f_equal.
  - apply (equalize_lut_darkest _ lo hi); auto.
    intros s Hs. apply Hb. exact Hs.
  - apply (equalize_lut_brightest _ hi lo); auto.
    intros s Hs. apply Hb. exact Hs.
Qed.

Lemma rgb_equalization_stretches_witness :
  pixel (Color [[(0, 20, 30); (128, 20, 30); (255, 20, 30)]]) 0 0 0 = Some 0 /\
  pixel (Color [[(0, 20, 30); (128, 20, 30); (255, 20, 30)]]) 0 2 0 = Some 255.
Proof.
  assert (H : forall y x,
             (pixel (Color [[(10, 20, 30); (40, 20, 30); (90, 20, 30)]]) y x 0
                = Some 10 ->
              pixel (Color [[(0, 20, 30); (128, 20, 30); (255, 20, 30)]]) y x 0
                = Some 0) /\
             (pixel (Color [[(10, 20, 30); (40, 20, 30); (90, 20, 30)]]) y x 0
                = Some 90 ->
              pixel (Color [[(0, 20, 30); (128, 20, 30); (255, 20, 30)]]) y x 0
                = Some 255)).
  { apply (rgb_equalization_stretches
             [[(10, 20, 30); (40, 20, 30); (90, 20, 30)]] _ 0 10 90).
    - reflexivity.
    - simpl. auto.
    - simpl. auto.
    - simpl. intros s [<-|[<-|[<-|[]]]]; lia.
    - discriminate. }
  split.
  - apply (proj1 (H 0%nat 0%nat)). reflexivity.
  - apply (proj2 (H 0%nat 2%nat)). reflexivity.
Defined.

(** X8: RGB equalization returns an image of one colour as it is. *)
Theorem rgb_equalization_uniform :
  forall (p0 : bgr) (rows : list (list bgr)),
    uniform p0 rows ->
    histogram_equalization_rgb (Color rows) = Ok (Color rows).
Proof.
  intros [[b0 g0] r0] rows Hu. rewrite histogram_equalization_rgb_pixels.
  do 2 f_equal. unfold uniform in Hu. rewrite Forall_forall in Hu.
  rewrite <- (map_id rows) at 3. apply map_ext_in. intros row Hr.
  rewrite <- (map_id row) at 2. apply map_ext_in. intros p Hp.
  pose proof (Hu row Hr) as Hrow. rewrite Forall_forall in Hrow.
  pose proof (Hrow p Hp) as E. subst p.
  unfold equalize_bgr, channel_lut, channel_samples, channel_plane. simpl.
  assert (K : forall sel : bgr -> Z,
             equalize_lut (samples (column sel rows)) (sel (b0, g0, r0))
             = sel (b0, g0, r0)).
  { intros sel. apply equalize_lut_constant.
    - apply (in_column_samples sel rows row (b0, g0, r0)); assumption.
    - intros s Hs.
      destruct (column_samples_inv sel rows s Hs) as (row' & p' & Hr' & Hp' & ->).
      pose proof (Hu row' Hr') as Hrow'. rewrite Forall_forall in Hrow'.
      rewrite <- (Hrow' p' Hp'). reflexivity. }
  pose proof (K (fun p => fst (fst p))) as Kb.
  pose proof (K (fun p => snd (fst p))) as Kg.
  pose proof (K (fun p => snd p)) as Kr.
  simpl in Kb, Kg, Kr. rewrite Kb, Kg, Kr. reflexivity.
Qed.

Lemma rgb_equalization_uniform_witness :
  histogram_equalization_rgb flat = Ok flat.
Proof.
  apply (rgb_equalization_uniform (9, 9, 9)).
  repeat constructor.
Defined.

(** ** HSV equalization, further *)

(** X9: HSV equalization of a three-channel image returns an image of the
    same shape. *)
Theorem hsv_equalization_shape :
  forall rows : list (list bgr),
    exists out,
      histogram_equalization_hsv (Color rows) = Ok out /\
      shape out = shape (Color rows) /\ channels out = 3%nat.
Proof.
  intros rows. eexists. split; [ apply histogram_equalization_hsv_pixels | ].
  simpl. rewrite length_map, width_map. split; reflexivity.
Qed.

Lemma bgr2hsv_grey (g : Z) : bgr2hsv_px (g, g, g) = (0, 0, g).
Proof.
  unfold bgr2hsv_px, max3, min3. rewrite !Z.max_id, !Z.min_id, Z.sub_diag.
  simpl. destruct (g =? 0); [ reflexivity | ].
  assert (E : (inject_Z 0 / inject_Z g == inject_Z 0)%Q)
    by (unfold Qdiv; apply Qmult_0_l).
  rewrite (cvRound_comp _ _ E), cvRound_inject_Z. reflexivity.
Qed.

Lemma grey_column (sel : bgr -> Z) (rows : list (list bgr)) :
  (forall g, sel (g, g, g) = g) -> grey_valued rows ->
  column (fun p => snd (bgr2hsv_px p)) rows = column sel rows.
Proof.
  intros Hsel Hg. unfold column, grey_valued in *. rewrite Forall_forall in Hg.
  apply map_ext_in. intros row Hr. apply map_ext_in. intros [[b g] r] Hp.
  pose proof (Hg row Hr) as Hrow. rewrite Forall_forall in Hrow.
  destruct (Hrow _ Hp) as [-> ->]. rewrite bgr2hsv_grey, Hsel. reflexivity.
Qed.

Lemma grey_value_lut (rows : list (list bgr)) (c : nat) :
  grey_valued rows -> (c < 3)%nat ->
  value_lut rows = channel_lut (Color rows) c.
Proof.
  intros Hg Hc. unfold value_lut, channel_lut, channel_samples, channel_plane.
  do 2 f_equal.
  assert (C : column (fun q : bgr => snd q) (map (map bgr2hsv_px) rows)
              = column (fun q => snd (bgr2hsv_px q)) rows).
  { unfold column. rewrite map_map. apply map_ext. intros row0. apply map_map. }
  rewrite C.
  destruct c as [|[|[|c]]]; [ | | | lia ]; cbn [nth split];
    apply grey_column; try assumption; reflexivity.
Qed.

(** X10: on a three-channel image whose pixels are all grey (blue, green
    and red equal), HSV equalization and RGB equalization return the same
    image. *)
Theorem equalizations_agree_on_grey :
  forall rows : list (list bgr),
    grey_valued rows ->
    histogram_equalization_hsv (Color rows) =
    histogram_equalization_rgb (Color rows).
Proof.
  intros rows Hg.
  rewrite histogram_equalization_hsv_pixels, histogram_equalization_rgb_pixels.
  do 2 f_equal. pose proof Hg as Hg'. unfold grey_valued in Hg'.
  rewrite Forall_forall in Hg'.
  apply map_ext_in. intros row Hr. apply map_ext_in. intros [[b g] r] Hp.
  pose proof (Hg' row Hr) as Hrow. rewrite Forall_forall in Hrow.
  destruct (Hrow _ Hp) as [-> ->].
  unfold hue, saturation, brightness, equalize_bgr.
  rewrite bgr2hsv_grey. cbn [fst snd].
  rewrite <- (grey_value_lut rows 0), <- (grey_value_lut rows 1),
    <- (grey_value_lut rows 2) by (assumption || lia).
  reflexivity.
Qed.

Lemma equalizations_agree_on_grey_witness :
  histogram_equalization_hsv (Color [[(10, 10, 10); (40, 40, 40); (90, 90, 90)]]) =
  histogram_equalization_rgb (Color [[(10, 10, 10); (40, 40, 40); (90, 90, 90)]]).
Proof.
  apply equalizations_agree_on_grey.
  repeat constructor.
Defined.

Lemma sector_valid (t0 t1 t2 t3 m : Z) :
  is_uchar t0 -> is_uchar t1 -> is_uchar t2 -> is_uchar t3 ->
  bgr_uchar
    match m with
    | 0 => (t1, t3, t0)
    | 1 => (t1, t0, t2)
    | 2 => (t3, t0, t1)
    | 3 => (t0, t2, t1)
    | 4 => (t0, t1, t3)
    | _ => (t2, t1, t0)
    end.
Proof.
  intros H0 H1 H2 H3.
  repeat match goal with
         | |- context [match ?p with _ => _ end] => destruct p
         end; simpl; auto.
Qed.

Lemma hsv2bgr_valid (h s v : Z) : is_uchar v -> bgr_uchar (hsv2bgr_px (h, s, v)).
Proof.
  intros Hv. unfold hsv2bgr_px. destruct (s =? 0).
  - simpl. auto.
  - apply sector_valid; apply saturate_is_uchar.
Qed.

Lemma max3_valid (p : bgr) : bgr_uchar p -> is_uchar (snd (bgr2hsv_px p)).
Proof.
  destruct p as [[b g] r]. unfold bgr_uchar, is_uchar, bgr2hsv_px, max3. simpl.
  lia.
Qed.

(** X11: HSV equalization of a valid image is a valid image: every sample
    of the result fits the 8-bit depth. *)
Theorem hsv_equalization_valid :
  forall (rows : list (list bgr)) (out : image),
    valid_image (Color rows) ->
    histogram_equalization_hsv (Color rows) = Ok out ->
    valid_image out.
Proof.
  intros rows out Hv Hout. rewrite histogram_equalization_hsv_pixels in Hout.
  injection Hout as <-. simpl in *.
  apply Forall_map, Forall_forall. intros row Hr.
  apply Forall_map, Forall_forall. intros p Hp.
  apply hsv2bgr_valid. unfold value_lut, brightness.
  assert (C : column (fun q : bgr => snd q) (map (map bgr2hsv_px) rows)
              = column (fun q => snd (bgr2hsv_px q)) rows).
  { unfold column. rewrite map_map. apply map_ext. intros row0. apply map_map. }
  rewrite C. apply equalize_lut_valid.
  - apply column_samples_valid; [ apply max3_valid | exact Hv ].
  - apply (in_not_nil (snd (bgr2hsv_px p))).
    apply (in_column_samples (fun q => snd (bgr2hsv_px q)) rows row p); assumption.
Qed.

Lemma hsv_equalization_valid_witness :
  valid_image (Color [[(0, 0, 0); (0, 0, 255)]]).
Proof.
  apply (hsv_equalization_valid [[(0, 0, 100); (0, 0, 200)]]).
  - simpl. repeat constructor; unfold is_uchar; lia.
  - reflexivity.
Defined.

(** ** The histogram widget *)

Lemma sum_Z_app (l m : list Z) : sum_Z (l ++ m) = sum_Z l + sum_Z m.
Proof.
  unfold sum_Z. induction l as [|a l IH]; simpl; [ reflexivity | ].
  rewrite IH. lia.
Qed.

Lemma sum_Z_map_add {A : Type} (f g : A -> Z) (l : list A) :
  sum_Z (map (fun i => f i + g i) l) = sum_Z (map f l) + sum_Z (map g l).
Proof.
  unfold sum_Z. induction l as [|a l IH]; simpl; [ reflexivity | ].
  rewrite IH. lia.
Qed.

(** Exactly one bin below [n] matches a value between 0 and [n]. *)
Lemma sum_indicator (v : Z) (n : nat) :
  0 <= v ->
  sum_Z (map (fun i => if Z.of_nat i =? v then 1 else 0) (seq 0 n)) =
  if v <? Z.of_nat n then 1 else 0.
Proof.
  intros Hv. induction n as [|n IH].
  - simpl. destruct (Z.ltb_spec v 0); [ lia | reflexivity ].
  - rewrite seq_S, map_app, sum_Z_app, IH, Nat2Z.inj_succ.
    cbn [Nat.add map]. unfold sum_Z at 1. cbn [fold_right].
    destruct (Z.ltb_spec v (Z.of_nat n)), (Z.ltb_spec v (Z.succ (Z.of_nat n))),
      (Z.eqb_spec (Z.of_nat n) v); lia.
Qed.

Lemma sum_bins (l : list Z) (n : nat) :
  Forall (fun v => 0 <= v < Z.of_nat n) l ->
  sum_Z (map (fun i => count_if (Z.eqb (Z.of_nat i)) l) (seq 0 n)) =
  Z.of_nat (length l).
Proof.
  intros H. induction H as [|v l Hv _ IH].
  - simpl. induction (seq 0 n) as [|i s IHs]; [ reflexivity | exact IHs ].
  - assert (E : map (fun i => count_if (Z.eqb (Z.of_nat i)) (v :: l)) (seq 0 n) =
                map (fun i => (if Z.of_nat i =? v then 1 else 0) +
                              count_if (Z.eqb (Z.of_nat i)) l) (seq 0 n)).
    { apply map_ext. intros i. apply count_if_cons. }
    rewrite E, sum_Z_map_add, IH, sum_indicator by lia.
    destruct (Z.ltb_spec v (Z.of_nat n)); [ | lia ].
    simpl length. lia.
Qed.

Lemma length_samples_column (sel : bgr -> Z) (rows : list (list bgr)) :
  length (samples (column sel rows)) = length (concat rows).
Proof.
  unfold samples, column. induction rows as [|row rows IH]; simpl;
    [ reflexivity | ].
  rewrite !length_app, length_map, IH. reflexivity.
Qed.

Lemma calcHist_total (p : plane) :
  valid_plane p -> sum_Z (calcHist p) = Z.of_nat (length (samples p)).
Proof.
  intros Hv. unfold calcHist. apply sum_bins.
  apply Forall_forall. intros v Hin. unfold samples in Hin.
  apply in_concat in Hin. destruct Hin as (row & Hr & Hvr).
  unfold valid_plane in Hv. rewrite Forall_forall in Hv. specialize (Hv row Hr).
  rewrite Forall_forall in Hv. specialize (Hv v Hvr). unfold is_uchar in Hv.
  simpl. lia.
Qed.

Lemma column_valid (sel : bgr -> Z) (rows : list (list bgr)) :
  (forall p, bgr_uchar p -> is_uchar (sel p)) ->
  Forall (Forall bgr_uchar) rows -> valid_plane (column sel rows).
Proof.
  intros Hsel Hv. unfold valid_plane, column.
  apply Forall_map. apply Forall_impl with (2 := Hv). intros row Hrow.
  apply Forall_map. apply Forall_impl with (2 := Hrow). exact Hsel.
Qed.

(** X12: [update_histogram] on a valid image raises nothing and plots one
    series per channel, each of 256 bins whose counts add up to the number
    of pixels of the image. *)
Theorem update_histogram_series :
  forall (s : App) (img : image),
    valid_image img ->
    let result := update_histogram set_processed_histogram (Some img) s in
    snd result = Ok tt /\
    length (processed_histogram (fst result)) = channels img /\
    Forall (fun series =>
              length series = 256%nat /\
              sum_Z series = Z.of_nat (pixel_count img))
           (processed_histogram (fst result)).
Proof.
  intros s img Hv result. subst result.
  cbv [update_histogram and_then put lift shape_of fst snd
       set_processed_histogram processed_histogram].
  split; [ reflexivity | split ].
  - rewrite length_map. destruct img; reflexivity.
  - apply Forall_map.
    destruct img as [rows|rows]; cbn [split valid_image pixel_count] in *.
    + constructor; [ | constructor ]. split.
      * unfold calcHist. rewrite length_map, length_seq. reflexivity.
      * apply calcHist_total. exact Hv.
    + assert (K : forall sel : bgr -> Z,
                 (forall p, bgr_uchar p -> is_uchar (sel p)) ->
                 length (calcHist (column sel rows)) = 256%nat /\
                 sum_Z (calcHist (column sel rows)) = Z.of_nat (length (concat rows))).
      { intros sel Hsel. split.
        - unfold calcHist. rewrite length_map, length_seq. reflexivity.
        - rewrite calcHist_total by (apply column_valid; assumption).
          rewrite length_samples_column. reflexivity. }
      repeat constructor; apply K; intros [[? ?] ?] (? & ? & ?); assumption.
Qed.

Lemma update_histogram_series_witness :
  length (processed_histogram
            (fst (update_histogram set_processed_histogram (Some flat) init)))
    = 3%nat /\
  Forall (fun series =>
            length series = 256%nat /\ sum_Z series = 2)
         (processed_histogram
            (fst (update_histogram set_processed_histogram (Some flat) init))).
Proof.
  assert (V : valid_image flat)
    by (simpl; repeat constructor; unfold is_uchar; lia).
  destruct (update_histogram_series init flat V) as (_ & L & F).
  split; [ exact L | exact F ].
Defined.

(** ** Handlers, further *)

(** X13: [process_image] never touches the original slot, its label, its
    histogram or the widgets, whether it succeeds, raises or returns at
    the guard. *)
Theorem process_image_frame :
  forall (cv2 : cv_lib) (s : App),
    original_image (fst (process_image cv2 s)) = original_image s /\
    original_label (fst (process_image cv2 s)) = original_label s /\
    original_histogram (fst (process_image cv2 s)) = original_histogram s /\
    ui (fst (process_image cv2 s)) = ui s.
Proof.
  intros cv2 s. destruct (original_image s) as [img|] eqn:Ho.
  - destruct (dispatch cv2 (ui s) img) as [res|e] eqn:Hd.
    + rewrite (process_image_result cv2 s img res Ho Hd). simpl.
      repeat split; try reflexivity. exact Ho.
    + rewrite (process_image_raises cv2 s img e Ho Hd). simpl.
      repeat split; try reflexivity. exact Ho.
  - rewrite (process_image_guard cv2 s Ho). simpl.
    repeat split; try reflexivity. exact Ho.
Qed.

Lemma load_image_ui (cv2 : cv_lib) (f : string) (s : App) :
  ui (fst (load_image cv2 f s)) = ui s.
Proof.
  destruct (String.eqb_spec f EmptyString) as [->|Hf]; [ reflexivity | ].
  destruct (imread cv2 f) as [rows|] eqn:Hr.
  - apply (load_image_decoded cv2 s f rows Hf Hr).
  - rewrite (load_image_undecodable cv2 s f Hf Hr). reflexivity.
Qed.

(** X14: [load_image] never changes the selected method or the values of
    the widgets; and a load that does not succeed (a cancelled dialog, a
    file that does not decode) leaves the processed slot, both labels and
    both histograms as they were. *)
Theorem load_image_frame :
  forall (cv2 : cv_lib) (f : string) (s : App),
    ui (fst (load_image cv2 f s)) = ui s /\
    (~ successful_load cv2 s f ->
     processed_image (fst (load_image cv2 f s)) = processed_image s /\
     processed_label (fst (load_image cv2 f s)) = processed_label s /\
     processed_histogram (fst (load_image cv2 f s)) = processed_histogram s /\
     original_label (fst (load_image cv2 f s)) = original_label s /\
     original_histogram (fst (load_image cv2 f s)) = original_histogram s).
Proof.
  intros cv2 f s. split; [ apply load_image_ui | ]. intros Hn.
  destruct (String.eqb_spec f EmptyString) as [->|Hf].
  - rewrite load_image_cancelled. repeat split; reflexivity.
  - destruct (imread cv2 f) as [rows|] eqn:Hr.
    + exfalso. apply Hn. apply successful_load_decodes.
      split; [ exact Hf | congruence ].
    + rewrite (load_image_undecodable cv2 s f Hf Hr). repeat split; reflexivity.
Qed.

Lemma load_image_frame_witness :
  processed_image (fst (load_image blank_cv "missing.png" loaded_and_processed))
    = Some flat /\
  original_label (fst (load_image blank_cv "missing.png" loaded_and_processed))
    = Some flat.
Proof.
  destruct (load_image_frame blank_cv "missing.png" loaded_and_processed)
    as [_ H].
  assert (N : ~ successful_load blank_cv loaded_and_processed "missing.png").
  { intros [_ E]. discriminate E. }
  destruct (H N) as (P & _ & _ & L & _).
  split; [ rewrite P | rewrite L ]; reflexivity.
Defined.

(** ** Invariants of a session *)

Ltac step_handler :=
  cbv [load_image process_image resizeEvent select_method adjust
       display_image update_histogram shape_of
       and_then get put lift ret fst snd].

Lemma load_image_decoded_previews (cv2 : cv_lib) (s : App) (f : string)
      (rows : list (list bgr)) :
  f <> EmptyString -> imread cv2 f = Some rows ->
  original_label (fst (load_image cv2 f s)) =
    Some (imutils_resize cv2 (Color rows) 500) /\
  original_histogram (fst (load_image cv2 f s)) = plotted (Some (Color rows)).
Proof.
  intros Hf Hr. unfold load_image.
  destruct (String.eqb_spec f EmptyString) as [E|_]; [ contradiction | ].
  step_handler. cbv [set_original_image original_image]. rewrite Hr.
  split; reflexivity.
Qed.

Lemma select_method_state (m : method) (s : App) :
  select_method m s =
  (if method_eqb m (method_combo (ui s)) then s
   else set_ui s (update_controls (set_method (ui s) m)), Ok tt).
Proof.
  step_handler. destruct (method_eqb m (method_combo (ui s))); reflexivity.
Qed.

Lemma adjust_state (w : widget) (v : Z) (s : App) :
  adjust w v s =
  (if existsb (widget_eqb w) (panel (method_combo (ui s)))
   then set_ui s (set_widget (ui s) w (clamp (fst (range w)) (snd (range w)) v))
   else s, Ok tt).
Proof.
  step_handler.
  destruct (existsb (widget_eqb w) (panel (method_combo (ui s)))); reflexivity.
Qed.

Lemma resizeEvent_state (cv2 : cv_lib) (s : App) :
  resizeEvent cv2 s =
  (let s1 := match original_image s with
             | Some i => set_original_label s (Some (imutils_resize cv2 i 500))
             | None => s
             end in
   match processed_image s with
   | Some i => set_processed_label s1 (Some (imutils_resize cv2 i 500))
   | None => s1
   end, Ok tt).
Proof.
  unfold resizeEvent, display_image. run_handler.
  destruct (original_image s) as [i|] eqn:Ho; simpl;
    destruct (processed_image s) as [j|] eqn:Hp; simpl; reflexivity.
Qed.

Lemma widget_eqb_eq (v w : widget) : widget_eqb v w = true <-> v = w.
Proof. destruct v, w; simpl; split; intros H; congruence. Qed.

Lemma widget_value_set (c : controls) (w w' : widget) (v : Z) :
  widget_value (set_widget c w v) w' =
  if widget_eqb w' w then Some v else widget_value c w'.
Proof. destruct w, w'; reflexivity. Qed.

Lemma range_ordered (w : widget) : fst (range w) <= snd (range w).
Proof. destruct w; simpl; lia. Qed.

Lemma defaults_ready (c : controls) (m : method) (w : widget) :
  In w (panel m) ->
  widget_value (update_controls (set_method c m)) w = Some (default_value w) /\
  in_range w (default_value w).
Proof.
  unfold in_range.
  destruct m; simpl; intros H;
    repeat (destruct H as [<-|H]; [ simpl; split; [ reflexivity | lia ] | ]);
    contradiction.
Qed.

Lemma method_combo_defaults (c : controls) (m : method) :
  method_combo (update_controls (set_method c m)) = m.
Proof. destruct m; reflexivity. Qed.

Lemma controls_ready_select (c : controls) (m : method) :
  controls_ready (update_controls (set_method c m)).
Proof.
  intros w Hw. rewrite method_combo_defaults in Hw.
  exists (default_value w). apply defaults_ready. exact Hw.
Qed.

Lemma controls_ready_adjust (c : controls) (w : widget) (v : Z) :
  controls_ready c ->
  controls_ready (set_widget c w (clamp (fst (range w)) (snd (range w)) v)).
Proof.
  intros H w' Hw'. change (method_combo (set_widget c w _)) with (method_combo c)
    in Hw'.
  rewrite widget_value_set. destruct (widget_eqb w' w) eqn:E.
  - apply widget_eqb_eq in E. subst w'. eexists. split; [ reflexivity | ].
    unfold in_range, clamp. pose proof (range_ordered w). lia.
  - apply H. exact Hw'.
Qed.

(** With the widgets of the panel in place, the selected method returns an
    image for every three-channel source. *)
Lemma dispatch_three_channel (cv2 : cv_lib) (c : controls)
      (rows : list (list bgr)) :
  controls_ready c -> exists res, dispatch cv2 c (Color rows) = Ok res.
Proof.
  intros H. unfold controls_ready in H. unfold dispatch.
  destruct (method_combo c) eqn:Em; simpl in H.
  - destruct (H w_alpha_slider) as (a & Ea & _); [ auto | ].
    destruct (H w_beta_slider) as (b & Eb & _); [ auto | ].
    simpl in Ea, Eb. rewrite Ea, Eb. eexists. reflexivity.
  - rewrite histogram_equalization_rgb_pixels. eexists. reflexivity.
  - rewrite histogram_equalization_hsv_pixels. eexists. reflexivity.
  - destruct (H w_threshold1) as (a & Ea & _); [ auto | ].
    destruct (H w_threshold2) as (b & Eb & _); [ auto | ].
    simpl in Ea, Eb. rewrite Ea, Eb. eexists. reflexivity.
  - destruct (H w_rho_spin) as (a & Ea & _); [ auto | ].
    destruct (H w_theta_spin) as (b & Eb & _); [ auto | ].
    destruct (H w_threshold_spin) as (t & Et & _); [ auto | ].
    simpl in Ea, Eb, Et. rewrite Ea, Eb, Et. eexists. reflexivity.
  - destruct (H w_max_corners) as (a & Ea & _); [ auto | ].
    destruct (H w_quality_level) as (b & Eb & _); [ auto | ].
    destruct (H w_min_distance) as (t & Et & _); [ auto | ].
    simpl in Ea, Eb, Et. rewrite Ea, Eb, Et. cbv [value bind].
    unfold detect_corners. cbv [cvtColor bind].
    destruct (goodFeaturesToTrack cv2 _ a _ t); eexists; reflexivity.
Qed.

Lemma session_ok_init (cv2 : cv_lib) : session_ok cv2 init.
Proof.
  split; [ | split ].
  - intros w Hw. simpl in Hw.
    destruct Hw as [<-|[<-|[]]]; eexists; (split; [ reflexivity | ]);
      unfold in_range; simpl; lia.
  - exact I.
  - split; [ reflexivity | split; [ reflexivity | ] ]. intros i Hi.
    discriminate Hi.
Qed.

Lemma resizeEvent_unchanged (cv2 : cv_lib) (s : App) :
  previews_current cv2 s -> resizeEvent cv2 s = (s, Ok tt).
Proof.
  intros (Hl & Hh & Ho). rewrite resizeEvent_state.
  destruct s as [o p ol pl oh ph u]. simpl in *.
  destruct o as [i|]; [ destruct (Ho i eq_refl) as [Dl _]; subst ol | ];
    destruct p as [j|]; simpl in Hl; subst pl; reflexivity.
Qed.

Lemma handle_session_ok (cv2 : cv_lib) (e : event) (s : App) :
  session_ok cv2 s -> session_ok cv2 (fst (handle cv2 e s)).
Proof.
  intros H. pose proof H as (Hc & Ht & Hl & Hh & Ho).
  destruct e as [f|m|w v| |]; simpl handle.
  - destruct (String.eqb_spec f EmptyString) as [->|Hf].
    + rewrite load_image_cancelled. exact H.
    + destruct (imread cv2 f) as [rows|] eqn:Hr.
      * destruct (load_image_decoded cv2 s f rows Hf Hr)
          as (_ & Eo & Ep & El & Eh & Eu).
        destruct (load_image_decoded_previews cv2 s f rows Hf Hr) as (Dl & Dh).
        split; [ rewrite Eu; exact Hc | split ].
        -- rewrite Eo. exact I.
        -- split; [ rewrite El, Ep; reflexivity | split ].
           ++ rewrite Eh, Ep. reflexivity.
           ++ intros i Hi. rewrite Eo in Hi. injection Hi as <-.
              split; assumption.
      * rewrite (load_image_undecodable cv2 s f Hf Hr). simpl.
        split; [ exact Hc | split; [ exact I | ] ].
        split; [ exact Hl | split; [ exact Hh | ] ].
        intros i Hi. discriminate Hi.
  - rewrite select_method_state. simpl.
    destruct (method_eqb m (method_combo (ui s))); [ exact H | ].
    split; [ apply controls_ready_select | ].
    exact (conj Ht (conj Hl (conj Hh Ho))).
  - rewrite adjust_state. simpl.
    destruct (existsb (widget_eqb w) (panel (method_combo (ui s))));
      [ | exact H ].
    split; [ apply controls_ready_adjust; exact Hc | ].
    exact (conj Ht (conj Hl (conj Hh Ho))).
  - destruct (original_image s) as [[rows|rows]|] eqn:Eo.
    + contradiction.
    + destruct (dispatch_three_channel cv2 (ui s) rows Hc) as [res Hd].
      rewrite (process_image_result cv2 s _ res Eo Hd). simpl fst.
      split; [ exact Hc | split ].
      * simpl. rewrite Eo. exact I.
      * split; [ reflexivity | split; [ reflexivity | ] ].
        intros i Hi. simpl in Hi. rewrite Eo in Hi. apply Ho. exact Hi.
    + rewrite (process_image_guard cv2 s Eo). simpl. exact H.
  - rewrite (resizeEvent_unchanged cv2 s (conj Hl (conj Hh Ho))). exact H.
Qed.

Lemma run_session_ok (cv2 : cv_lib) (es : list event) :
  forall s, session_ok cv2 s -> session_ok cv2 (run cv2 es s).
Proof.
  induction es as [|e es IH]; intros s H; [ exact H | ].
  change (run cv2 (e :: es) s) with (run cv2 es (fst (handle cv2 e s))).
  apply IH, handle_session_ok, H.
Qed.

Lemma reachable_session_ok (cv2 : cv_lib) (es : list event) :
  session_ok cv2 (run cv2 es init).
Proof. apply run_session_ok, session_ok_init. Qed.

(** X15: at every point of a session every widget of the panel on screen
    exists and holds a value inside the range given to [setRange]; in
    particular the bucket count that divides pi is at least 1. *)
Theorem widgets_stay_in_range :
  forall (cv2 : cv_lib) (es : list event) (w : widget),
    In w (panel (method_combo (ui (run cv2 es init)))) ->
    exists v,
      widget_value (ui (run cv2 es init)) w = Some v /\
      fst (range w) <= v <= snd (range w).
Proof.
  intros cv2 es w Hw.
  destruct (reachable_session_ok cv2 es) as (Hc & _). apply Hc. exact Hw.
Qed.

Lemma widgets_stay_in_range_witness :
  exists v,
    widget_value
      (ui (run blank_cv [Select LineDetection; Adjust w_theta_spin 0] init))
      w_theta_spin = Some v /\
    1 <= v <= 180.
Proof.
  apply (widgets_stay_in_range
           blank_cv [Select LineDetection; Adjust w_theta_spin 0] w_theta_spin).
  simpl. auto.
Defined.

(** X16: at every point of a session the original slot is empty or holds a
    three-channel image. *)
Theorem original_slot_three_channel :
  forall (cv2 : cv_lib) (es : list event) (img : image),
    original_image (run cv2 es init) = Some img -> channels img = 3%nat.
Proof.
  intros cv2 es img H.
  destruct (reachable_session_ok cv2 es) as (_ & Ht & _).
  rewrite H in Ht. destruct img; [ contradiction | reflexivity ].
Qed.

Lemma original_slot_three_channel_witness : channels flat = 3%nat.
Proof.
  apply (original_slot_three_channel blank_cv [Load "flat.png"; Process]).
  reflexivity.
Defined.

(** X17: in a session the only handler that lets an exception of its own
    escape is the load of a file that does not decode.  Every other event
    returns: [process_image], with every method and every value the
    widgets can take, never meets a missing widget, a split that does not
    unpack into three planes or a colour conversion of a single-channel
    image (the detectors and drawing primitives of the library are taken
    to return). *)
Theorem only_undecodable_load_raises :
  forall (cv2 : cv_lib) (es : list event) (e : event),
    (forall f, e = Load f -> f = EmptyString \/ imread cv2 f <> None) ->
    snd (handle cv2 e (run cv2 es init)) = Ok tt.
Proof.
  intros cv2 es e He.
  destruct (reachable_session_ok cv2 es) as (Hc & Ht & Hp).
  set (s := run cv2 es init) in *.
  destruct e as [f|m|w v| |]; simpl handle.
  - destruct (He f eq_refl) as [->|Hr]; [ reflexivity | ].
    destruct (String.eqb_spec f EmptyString) as [->|Hf]; [ reflexivity | ].
    destruct (imread cv2 f) as [rows|] eqn:E; [ | contradiction ].
    apply (load_image_decoded cv2 s f rows Hf E).
  - rewrite select_method_state. reflexivity.
  - rewrite adjust_state. reflexivity.
  - destruct (original_image s) as [[rows|rows]|] eqn:Eo.
    + contradiction.
    + destruct (dispatch_three_channel cv2 (ui s) rows Hc) as [res Hd].
      rewrite (process_image_result cv2 s _ res Eo Hd). reflexivity.
    + rewrite (process_image_guard cv2 s Eo). reflexivity.
  - rewrite resizeEvent_state. reflexivity.
Qed.

Lemma only_undecodable_load_raises_witness :
  snd (handle blank_cv Process
         (run blank_cv [Load "flat.png"; Select CornerDetection] init)) = Ok tt.
Proof.
  apply only_undecodable_load_raises. intros f Hf. discriminate Hf.
Defined.

(** X18: at every point of a session the processed label and histogram
    show exactly the processed slot (nothing when it is empty), and the
    original label and histogram show the original slot whenever it holds
    an image. *)
Theorem previews_follow_slots :
  forall (cv2 : cv_lib) (es : list event),
    let s := run cv2 es init in
    processed_label s =
      option_map (fun i => imutils_resize cv2 i 500) (processed_image s) /\
    processed_histogram s = plotted (processed_image s) /\
    forall i, original_image s = Some i ->
              original_label s = Some (imutils_resize cv2 i 500) /\
              original_histogram s = plotted (Some i).
Proof.
  intros cv2 es. destruct (reachable_session_ok cv2 es) as (_ & _ & Hp).
  exact Hp.
Qed.

(** X19: at every point of a session a resize event changes nothing: the
    previews it derives again from the slots are the ones on screen. *)
Theorem resize_changes_nothing :
  forall (cv2 : cv_lib) (es : list event),
    resizeEvent cv2 (run cv2 es init) = (run cv2 es init, Ok tt).
Proof.
  intros cv2 es. apply resizeEvent_unchanged.
  destruct (reachable_session_ok cv2 es) as (_ & _ & Hp). exact Hp.
Qed.

(** X20: choosing another method builds its widgets anew: each widget of
    the new panel holds its default value, whatever value it was given
    when the method was selected before, and neither slot changes. *)
Theorem select_method_resets :
  forall (s : App) (m : method),
    method_eqb m (method_combo (ui s)) = false ->
    let s' := fst (select_method m s) in
    method_combo (ui s') = m /\
    (forall w, In w (panel m) ->
               widget_value (ui s') w = Some (default_value w)) /\
    original_image s' = original_image s /\
    processed_image s' = processed_image s.
Proof.
  intros s m Hm s'. subst s'. rewrite select_method_state, Hm. simpl.
  split; [ apply method_combo_defaults | split ].
  - intros w Hw. apply defaults_ready. exact Hw.
  - split; reflexivity.
Qed.

Lemma select_method_resets_witness :
  widget_value
    (ui (fst (select_method LinearContrast
                (run blank_cv [Adjust w_alpha_slider 25; Select EdgeDetection]
                     init))))
    w_alpha_slider = Some 10.
Proof.
  apply (select_method_resets
           (run blank_cv [Adjust w_alpha_slider 25; Select EdgeDetection] init)
           LinearContrast).
  - reflexivity.
  - simpl. auto.
Defined.

(** ** Drawing, further *)

Local Open Scope R_scope.

(** X21: each coordinate of the two end points that [detect_lines] draws
    for (rho, theta) is within one pixel of the exact point 1000 units
    along the line from (rho cos(theta), rho sin(theta)). *)
Theorem line_endpoints_within_a_pixel :
  forall rho theta : R,
    let '((x1, y1), (x2, y2)) := line_endpoints rho theta in
    Rabs (IZR x1 - (rho * cos theta - 1000 * sin theta)) < 1 /\
    Rabs (IZR y1 - (rho * sin theta + 1000 * cos theta)) < 1 /\
    Rabs (IZR x2 - (rho * cos theta + 1000 * sin theta)) < 1 /\
    Rabs (IZR y2 - (rho * sin theta - 1000 * cos theta)) < 1.
Proof.
  intros rho theta. unfold line_endpoints.
  replace (rho * cos theta - 1000 * sin theta)
    with (cos theta * rho + 1000 * - sin theta) by ring.
  replace (rho * sin theta + 1000 * cos theta)
    with (sin theta * rho + 1000 * cos theta) by ring.
  replace (rho * cos theta + 1000 * sin theta)
    with (cos theta * rho - 1000 * - sin theta) by ring.
  replace (rho * sin theta - 1000 * cos theta)
    with (sin theta * rho - 1000 * cos theta) by ring.
  repeat split; apply py_int_truncates.
Qed.

Local Close Scope R_scope.

Lemma fold_left_keeps {A B : Type} (P : A -> Prop) (f : A -> B -> A)
      (l : list B) :
  (forall a b, P a -> P (f a b)) -> forall a, P a -> P (fold_left f l a).
Proof.
  intros Hf. induction l as [|b l IH]; intros a Ha; simpl;
    [ exact Ha | apply IH, Hf, Ha ].
Qed.

(** X22: whatever property of an image the drawing primitives [line] and
    [circle] keep (its shape, for one), the images that [detect_lines] and
    [detect_corners] return have it when the input has it. *)
Theorem detection_keeps_what_drawing_keeps :
  forall (cv2 : cv_lib) (P : image -> Prop),
    (forall img p q colour thickness,
        P img -> P (line cv2 img p q colour thickness)) ->
    (forall img centre radius colour thickness,
        P img -> P (circle cv2 img centre radius colour thickness)) ->
    forall img : image,
      P img ->
      (forall rho theta threshold, P (detect_lines cv2 img rho theta threshold)) /\
      (forall max_corners quality_level min_distance out,
          detect_corners cv2 img max_corners quality_level min_distance = Ok out ->
          P out).
Proof.
  intros cv2 P Hline Hcircle img Himg. split.
  - intros rho theta threshold. unfold detect_lines.
    destruct (HoughLines cv2 (Canny cv2 img 50 150) rho theta threshold)
      as [ls|]; [ | exact Himg ].
    apply fold_left_keeps; [ | exact Himg ].
    intros a [r t] Ha. unfold draw_line.
    destruct (line_endpoints r t) as [p q]. apply Hline. exact Ha.
  - intros mc q md out. unfold detect_corners.
    destruct (cvtColor img COLOR_BGR2GRAY) as [[g|g]|e]; simpl;
      try discriminate.
    destruct (goodFeaturesToTrack cv2 g mc q md) as [cs|];
      intros E; injection E as <-; [ | exact Himg ].
    apply fold_left_keeps; [ | exact Himg ].
    intros a [x y] Ha. unfold draw_corner. apply Hcircle. exact Ha.
Qed.

Lemma detection_keeps_what_drawing_keeps_witness :
  shape (detect_lines blank_cv flat 1 (PI / 180) 100) = shape flat.
Proof.
  apply (proj1 (detection_keeps_what_drawing_keeps
                  blank_cv (fun i => shape i = shape flat)
                  (fun img _ _ _ _ H => H) (fun img _ _ _ _ H => H)
                  flat eq_refl)).
Defined.

(** X23: for a three-channel source, the image that [process_image]
    computes has the shape of the source under linear contrast and both
    equalizations, and is single-channel under edge detection. *)
Theorem dispatch_result_shape :
  forall (cv2 : cv_lib) (c : controls) (rows : list (list bgr)) (res : image),
    dispatch cv2 c (Color rows) = Ok res ->
    match method_combo c with
    | LinearContrast | RGBHistogramEqualization | HSVHistogramEqualization =>
        shape res = shape (Color rows)
    | EdgeDetection => channels res = 1%nat
    | LineDetection | CornerDetection => True
    end.
Proof.
  intros cv2 c rows res. unfold dispatch.
  destruct (method_combo c); try (intros _; exact I).
  - destruct (alpha_slider c) as [a|]; [ | discriminate ].
    destruct (beta_slider c) as [b|]; [ | discriminate ].
    cbv [value bind]. intros E. injection E as <-.
    exact (shape_map_samples _ (Color rows)).
  - rewrite histogram_equalization_rgb_pixels. intros E. injection E as <-.
    simpl. rewrite length_map, width_map. reflexivity.
  - rewrite histogram_equalization_hsv_pixels. intros E. injection E as <-.
    simpl. rewrite length_map, width_map. reflexivity.
  - destruct (threshold1 c) as [a|]; [ | discriminate ].
    destruct (threshold2 c) as [b|]; [ | discriminate ].
    simpl. intros E. injection E as <-. reflexivity.
Qed.

Lemma dispatch_result_shape_witness :
  shape (Color [[(0, 20, 0); (255, 20, 255)]]) =
  shape (Color [[(10, 20, 30); (40, 20, 90)]]).
Proof.
  apply (dispatch_result_shape
           blank_cv
           (ui (run blank_cv [Select RGBHistogramEqualization] init))
           [[(10, 20, 30); (40, 20, 90)]]
           (Color [[(0, 20, 0); (255, 20, 255)]])).
  reflexivity.
Defined.

(** * HSV equalization: hue and saturation through the round trip *)


Lemma inject_Z_nonneg (z : Z) : 0 <= z -> (0 <= inject_Z z)%Q.
Proof. intros H. change 0%Q with (inject_Z 0). rewrite <- Zle_Qle. exact H. Qed.
























